(** * Cotisations dashboard (app.py): filter, aggregations and arrears

    A shallow embedding of the data pipeline of [app.py]: the table read
    from the spreadsheet, the sidebar filter [df_filtre], the key
    indicators, the late-payment loop [retards] with its tally
    [retards_df], the group-by totals and the member-by-month pivot.

    Modelling choices.
    - A row of the spreadsheet is a record with the four columns [NOM],
      [ANNEE], [MOIS], [MONTANT]; a DataFrame is the list of its rows in
      index order.
    - The [MONTANT] column is an integer column: every amount cell of
      the spreadsheet holds a whole number (FCFA), which [read_excel]
      stores with dtype int64.  Its amounts are integers of the int64
      range ([int64_column]) and pandas adds them in int64 arithmetic,
      modulo 2^64 ([int64.add]).  A spreadsheet with a blank or a
      fractional amount is read as a float64 column; such tables are not
      represented here.  The missing value NaN thus only arises where a
      pandas operation creates it ([reindex]); it is modelled there by
      [None].
    - Strings are byte strings; month names are the UTF-8 bytes of the
      source literals.  Python compares strings by code point, which is
      the byte order of their UTF-8 encodings, i.e. [String.le].
    - A raised exception (the [KeyError] of [mois_map[...]]) aborts the
      pass: fallible code returns [option], [None] being the exception.
    - [datetime.date.today()] is an input of the pass.
    - The Streamlit and Plotly calls only display the values computed
      here; they are outside the model. *)

From stdpp Require Import gmap strings list sorting.

Local Open Scope string_scope.
Local Open Scope Z_scope.

(** ** Data model *)

Record row : Type := Row {
  NOM : string;
  ANNEE : Z;
  MOIS : string;
  MONTANT : Z
}.

Global Instance row_eq_dec : EqDecision row.
Proof. solve_decision. Defined.

Abbreviation DataFrame := (list row).

Record date : Type := Date { year : Z; month : Z; day : Z }.

(** The MONTANT column has dtype int64: every amount is an integer of
    the int64 range. *)
Definition int64_column (df : DataFrame) : Prop :=
  Forall (λ r, - 2 ^ 63 ≤ MONTANT r < 2 ^ 63) df.

(** ** int64 arithmetic *)

Module int64.

(** The int64 value of an integer: its representative modulo 2^64 in
    [-2^63, 2^63). *)
Definition wrap (z : Z) : Z := (z + 2 ^ 63) mod 2 ^ 64 - 2 ^ 63.

(** Addition of two int64 values, which wraps around on overflow. *)
Definition add (x y : Z) : Z := wrap (x + y).

End int64.

(** ** The pandas operations the script calls *)

Module pd.

(** [Series.isin(values)]: the boolean mask of the entries found in
    [values]. *)
Definition isin {A} `{EqDecision A} (col : list A) (values : list A) : list bool :=
  (λ x, bool_decide (x ∈ values)) <$> col.

(** [mask1 & mask2] on two masks of the same frame. *)
Definition and_mask (m1 m2 : list bool) : list bool := zip_with andb m1 m2.

(** [df[mask]]: the rows whose mask entry is [True], in index order.  The
    masks of the script are computed from the frame they index, so both
    lists have the same length. *)
Fixpoint getitem {A} (df : list A) (mask : list bool) : list A :=
  match df, mask with
  | r :: df', b :: mask' =>
      if b then r :: getitem df' mask' else getitem df' mask'
  | _, _ => []
  end.

(** [Series.sum()] on an int64 series: the entries are added one after
    the other in int64 arithmetic; the sum of an empty series is 0. *)
Definition sum (s : list Z) : Z := fold_left int64.add s 0.

(** [mask.sum()]: the number of [True] entries. *)
Definition count_true (m : list bool) : nat :=
  sum_list_with (λ b : bool, if b then 1%nat else 0%nat) m.

(** [Series.unique()] keeps one occurrence of each value; [sorted(...)]
    and the sorted group keys of [groupby] order them. *)
Definition unique {A} `{EqDecision A} (col : list A) : list A := remove_dups col.

Definition sorted_unique {A} `{EqDecision A} (R : relation A) `{RelDecision A A R}
    (col : list A) : list A :=
  merge_sort R (unique col).

(** [Series.nunique()]. *)
Definition nunique {A} `{EqDecision A} (col : list A) : nat := length (unique col).

(** Label lookup in a series given as (label, value) pairs with unique
    labels. *)
Fixpoint loc {K V} `{EqDecision K} (s : list (K * V)) (k : K) : option V :=
  match s with
  | [] => None
  | (k', v) :: s' => if decide (k' = k) then Some v else loc s' k
  end.

(** [df.groupby(key)["MONTANT"].sum()]: one entry per key present, keys
    ascending, each with the sum of the amounts of its rows. *)
Definition groupby_sum {K} `{EqDecision K} (R : relation K) `{RelDecision K K R}
    (key : row → K) (df : DataFrame) : list (K * Z) :=
  (λ k, (k, sum (MONTANT <$> filter (λ r, key r = k) df)))
    <$> sorted_unique R (key <$> df).

(** [Series.reindex(labels)] without [fill_value]: one entry per label, in
    the order of [labels]; a label missing from the series gets NaN
    ([None]); entries of the series under other labels are dropped. *)
Definition reindex {K} `{EqDecision K} (s : list (K * Z)) (labels : list K)
    : list (K * option Z) :=
  (λ l, (l, loc s l)) <$> labels.

(** The order of [DataFrame.value_counts()]: most frequent first. *)
Definition count_ge (a b : string * nat) : Prop := (b.2 ≤ a.2)%nat.

Global Instance count_ge_dec : RelDecision count_ge.
Proof. intros a b. unfold count_ge. apply _. Defined.

(** The distinct values of a column in the order of their first
    appearance (the group keys of [groupby(..., sort=False)]). *)
Fixpoint appearance {A} `{EqDecision A} (col : list A) : list A :=
  match col with
  | [] => []
  | x :: col' => x :: filter (λ y, y ≠ x) (appearance col')
  end.

(** [sort_values(ascending=False)] on the counts: a stable sort, entries
    with equal counts keep their relative order. *)
Fixpoint insert_desc (e : string * nat) (t : list (string * nat)) : list (string * nat) :=
  match t with
  | [] => [e]
  | e' :: t' => if decide (count_ge e e') then e :: e' :: t' else e' :: insert_desc e t'
  end.

Fixpoint sort_desc (t : list (string * nat)) : list (string * nat) :=
  match t with
  | [] => []
  | e :: t' => insert_desc e (sort_desc t')
  end.

(** [pd.DataFrame(col, columns=["NOM"]).value_counts()]: the number of
    rows of each distinct value, sorted by decreasing count; values with
    the same count stay in the order of their first appearance. *)
Definition value_counts (col : list string) : list (string * nat) :=
  sort_desc ((λ k, (k, length (filter (λ x, x = k) col))) <$> appearance col).

(** The order of the two-level group keys (member, month). *)
Definition pair_le (a b : string * string) : Prop :=
  (a.1 ≠ b.1 ∧ String.le a.1 b.1) ∨ (a.1 = b.1 ∧ String.le a.2 b.2).

Global Instance pair_le_dec : RelDecision pair_le.
Proof. intros a b. unfold pair_le. apply _. Defined.

(** A two-dimensional table: row labels, column labels, and one list of
    cells per row label. *)
Record Table : Type := MkTable {
  index : list string;
  columns : list string;
  values : list (list Z)
}.

(** [unstack] of a series keyed by (row label, column label), followed by
    [fillna(fill_value)]: the row labels and the column labels are the
    labels that occur in the keys, ascending; a cell holds the value of
    its key, or [fill_value] when the series has no such key. *)
Definition unstack (agged : list ((string * string) * Z)) (fill_value : Z) : Table :=
  let idx := sorted_unique String.le ((λ e, e.1.1) <$> agged) in
  let cols := sorted_unique String.le ((λ e, e.1.2) <$> agged) in
  {| index := idx;
     columns := cols;
     values := (λ n, (λ m, default fill_value (loc agged (n, m))) <$> cols) <$> idx |}.

(** [df.pivot_table(index="NOM", columns="MOIS", values="MONTANT",
    aggfunc="sum", fill_value=...)]: group by (member, month), sum, then
    unstack the month level. *)
Definition pivot_table (df : DataFrame) (fill_value : Z) : Table :=
  unstack (groupby_sum pair_le (λ r, (NOM r, MOIS r)) df) fill_value.


End pd.

(** ** The script *)

(** Line 39: the canonical month names, January to December. *)
Definition mois : list string :=
  ["Janvier"; "Février"; "Mars"; "Avril"; "Mai"; "Juin";
   "Juillet"; "Août"; "Septembre"; "Octobre"; "Novembre"; "Décembre"].

(** Lines 37-38: the options of the year and member selectors. *)
Definition annees (df : DataFrame) : list Z := pd.sorted_unique Z.le (ANNEE <$> df).
Definition membres (df : DataFrame) : list string := pd.sorted_unique String.le (NOM <$> df).

(** Line 46: the filtered frame. *)
Definition df_filtre (df : DataFrame)
    (annee_select : list Z) (membre_select mois_select : list string) : DataFrame :=
  pd.getitem df
    (pd.and_mask
       (pd.and_mask (pd.isin (ANNEE <$> df) annee_select)
                    (pd.isin (NOM <$> df) membre_select))
       (pd.isin (MOIS <$> df) mois_select)).

(** Lines 51-54: the key indicators. *)
Definition total_cotisations (dff : DataFrame) : Z := pd.sum (MONTANT <$> dff).
Definition nb_paiements (dff : DataFrame) : nat :=
  pd.count_true ((λ x, bool_decide (x > 0)) <$> (MONTANT <$> dff)).
Definition nb_non_paiements (dff : DataFrame) : nat :=
  pd.count_true ((λ x, bool_decide (x = 0)) <$> (MONTANT <$> dff)).
Definition nb_membres (dff : DataFrame) : nat := pd.nunique (NOM <$> dff).

(** Lines 73-77: the month numbers. *)
Definition mois_map : gmap string Z :=
  list_to_map
    [("Janvier", 1); ("Février", 2); ("Mars", 3); ("Avril", 4);
     ("Mai", 5); ("Juin", 6); ("Juillet", 7); ("Août", 8);
     ("Septembre", 9); ("Octobre", 10); ("Novembre", 11); ("Décembre", 12)].

(** [for _, row in df.iterrows(): body]: the body runs on every row in
    index order and threads the loop state; a raise ends the loop. *)
Fixpoint iterrows {S} (body : S → row → option S) (s : S) (df : DataFrame) : option S :=
  match df with
  | [] => Some s
  | r :: df' => s' ← body s r; iterrows body s' df'
  end.

(** Lines 82-88: the body of the late-payment loop.  [mois_map[...]]
    raises [KeyError] on a name that is not a key. *)
Definition retards_body (today : date) (retards : list string) (r : row)
    : option (list string) :=
  let current_year := year today in
  let current_month := month today in
  mois_num ← mois_map !! MOIS r;
  let annee := ANNEE r in
  let montant := MONTANT r in
  if bool_decide (annee < current_year)
     || (bool_decide (annee = current_year) && bool_decide (mois_num < current_month))
  then if bool_decide (montant = 0) then Some (retards ++ [NOM r])%list else Some retards
  else Some retards.

(** Lines 80-88: the names collected by the loop, one per flagged row. *)
Definition retards (today : date) (dff : DataFrame) : option (list string) :=
  iterrows (retards_body today) [] dff.

(** Line 90: the tally, one (member, unpaid months) entry per collected
    name. *)
Definition retards_df (today : date) (dff : DataFrame) : option (list (string * nat)) :=
  pd.value_counts <$> retards today dff.

(** Lines 101, 113, 125: the totals by year, by member and by month. *)
Definition total_par_annee (dff : DataFrame) : list (Z * Z) :=
  pd.groupby_sum Z.le ANNEE dff.
Definition total_par_membre (dff : DataFrame) : list (string * Z) :=
  pd.groupby_sum String.le NOM dff.
Definition total_par_mois (dff : DataFrame) : list (string * option Z) :=
  pd.reindex (pd.groupby_sum String.le MOIS dff) mois.

(** Line 144: the member-by-month table of the heatmap. *)
Definition pivot (dff : DataFrame) : pd.Table := pd.pivot_table dff 0.

(** What one run of the script computes from the table, the three
    selections and the date.  The selections come from
    [st.sidebar.multiselect], which returns some of the options it was
    given: [mois_select] only holds names of [mois].  An exception
    anywhere ends the run with the error shown to the user ([None]). *)
Record views : Type := Views {
  v_df_filtre : DataFrame;
  v_total_cotisations : Z;
  v_nb_membres : nat;
  v_nb_paiements : nat;
  v_nb_non_paiements : nat;
  v_retards_df : list (string * nat);
  v_total_par_annee : list (Z * Z);
  v_total_par_membre : list (string * Z);
  v_total_par_mois : list (string * option Z);
  v_pivot : pd.Table
}.

Definition run (df : DataFrame) (annee_select : list Z)
    (membre_select mois_select : list string) (today : date) : option views :=
  let dff := df_filtre df annee_select membre_select mois_select in
  tally ← retards_df today dff;
  Some {| v_df_filtre := dff;
          v_total_cotisations := total_cotisations dff;
          v_nb_membres := nb_membres dff;
          v_nb_paiements := nb_paiements dff;
          v_nb_non_paiements := nb_non_paiements dff;
          v_retards_df := tally;
          v_total_par_annee := total_par_annee dff;
          v_total_par_membre := total_par_membre dff;
          v_total_par_mois := total_par_mois dff;
          v_pivot := pivot dff |}.

(** ** The words of the specification *)

(** The selection predicate of the filter, as the specification words it. *)
Definition selected (years : list Z) (members months : list string) (r : row) : Prop :=
  ANNEE r ∈ years ∧ NOM r ∈ members ∧ MOIS r ∈ months.

Global Instance selected_dec years members months r :
  Decision (selected years members months r).
Proof. unfold selected. apply _. Defined.

(** The position of a month in the canonical order, counted from 1 as
    [date.month] is; undefined on any other string. *)
Definition canonical_month_index (m : string) : option Z :=
  (λ p, Z.of_nat (S p.1)) <$> list_find (λ x, x = m) mois.

(** The (year, month) of the record is strictly before the one of the
    reference date. *)
Definition precedes (ref : date) (r : row) : Prop :=
  match canonical_month_index (MOIS r) with
  | Some i => ANNEE r < year ref ∨ (ANNEE r = year ref ∧ i < month ref)
  | None => False
  end.

Global Instance precedes_dec ref r : Decision (precedes ref r).
Proof. unfold precedes. destruct (canonical_month_index _); apply _. Defined.

(** A record in arrears: strictly before the reference month, amount 0. *)
Definition in_arrears (ref : date) (r : row) : Prop :=
  precedes ref r ∧ MONTANT r = 0.

Global Instance in_arrears_dec ref r : Decision (in_arrears ref r).
Proof. unfold in_arrears. apply _. Defined.

(** A record of the reference month or of a later month. *)
Definition not_yet_due (ref : date) (r : row) : Prop :=
  match canonical_month_index (MOIS r) with
  | Some i => year ref < ANNEE r ∨ (ANNEE r = year ref ∧ month ref ≤ i)
  | None => False
  end.

(** The number of arrears records of a member. *)
Definition arrears_rows (ref : date) (dff : DataFrame) (n : string) : nat :=
  length (filter (λ r, NOM r = n ∧ in_arrears ref r) dff).

(** The number of distinct (year, month) pairs in arrears of a member. *)
Definition arrears_pairs (ref : date) (dff : DataFrame) (n : string) : nat :=
  size (list_to_set ((λ r, (ANNEE r, MOIS r))
                       <$> filter (λ r, NOM r = n ∧ in_arrears ref r) dff)
        : gset (Z * string)).

(** The sum of a list of integers as the exact integer it is, without
    wrap-around (the Σ of the specification). *)
Definition exact_sum (s : list Z) : Z := foldr Z.add 0 s.

(** The exact sum of the amounts of the rows of one group. *)
Definition exact_group_total {K} `{EqDecision K} (key : row → K) (df : DataFrame)
    (k : K) : Z :=
  exact_sum (MONTANT <$> filter (λ r, key r = k) df).

(** The sum of the amounts of the rows of one group. *)
Definition group_total {K} `{EqDecision K} (key : row → K) (df : DataFrame) (k : K) : Z :=
  pd.sum (MONTANT <$> filter (λ r, key r = k) df).

(** The sum of the amounts of the rows of one member in one month. *)
Definition pair_total (df : DataFrame) (n m : string) : Z :=
  pd.sum (MONTANT <$> filter (λ r, NOM r = n ∧ MOIS r = m) df).

(** ** The rest of the script *)

(** Lines 92-95: what the late-payment section shows: the tally when it
    has rows, the success message when [retards_df.empty]. *)
Inductive retards_view : Type :=
  | Tableau (t : list (string * nat))
  | Tous_a_jour.

Definition afficher_retards (retards_df : list (string * nat)) : retards_view :=
  match retards_df with
  | [] => Tous_a_jour
  | _ :: _ => Tableau retards_df
  end.

(** The views of an empty filtered frame. *)
Definition vues_vides : views :=
  {| v_df_filtre := [];
     v_total_cotisations := 0;
     v_nb_membres := 0;
     v_nb_paiements := 0;
     v_nb_non_paiements := 0;
     v_retards_df := [];
     v_total_par_annee := [];
     v_total_par_membre := [];
     v_total_par_mois := (λ m, (m, None)) <$> mois;
     v_pivot := pd.MkTable [] [] [] |}.

(** The late-payment outcomes of two frames agree up to the order of the
    rows of the tally: both raise, or both give a tally and the two
    tallies have the same entries. *)
Definition same_tally (o1 o2 : option (list (string * nat))) : Prop :=
  match o1, o2 with
  | Some t1, Some t2 => t1 ≡ₚ t2
  | None, None => True
  | _, _ => False
  end.

(** ** Sample tables *)


(** The scenario of the specification: three records of 2024, seen on
    2024-03-01. *)
Definition scenario : DataFrame :=
  [Row "Alice" 2024 "Janvier" 5000; Row "Alice" 2024 "Février" 0; Row "Bob" 2024 "Janvier" 0].

(** A frame in which one unpaid month of one member is entered twice. *)
Definition doublon : DataFrame :=
  [Row "Alice" 2024 "Janvier" 0; Row "Alice" 2024 "Janvier" 0].

(** Two amounts of 2^62 each: both fit in int64, their sum does not. *)
Definition debordement : DataFrame :=
  [Row "Alice" 2023 "Janvier" (2 ^ 62); Row "Bob" 2023 "Janvier" (2 ^ 62)].

(** A table in which Bob's record carries a misspelt month. *)
Definition mois_inconnu : DataFrame :=
  [Row "Alice" 2024 "Janvier" 5000; Row "Bob" 2024 "Janvembre" 0].

(** ** The filter *)

Lemma df_filtre_cons r df ys ms mos :
  df_filtre (r :: df) ys ms mos =
    if decide (selected ys ms mos r)
    then r :: df_filtre df ys ms mos else df_filtre df ys ms mos.
Proof.
  unfold df_filtre, pd.isin, pd.and_mask, selected. cbn [fmap list_fmap zip_with pd.getitem].
  destruct (decide _) as [(Hy & Hm & Hmo)|Hn].
  - by rewrite !bool_decide_eq_true_2.
  - destruct (decide (ANNEE r ∈ ys)); destruct (decide (NOM r ∈ ms));
      destruct (decide (MOIS r ∈ mos));
      rewrite ?(bool_decide_eq_true_2 (ANNEE r ∈ ys)), ?(bool_decide_eq_false_2 (ANNEE r ∈ ys)),
        ?(bool_decide_eq_true_2 (NOM r ∈ ms)), ?(bool_decide_eq_false_2 (NOM r ∈ ms)),
        ?(bool_decide_eq_true_2 (MOIS r ∈ mos)), ?(bool_decide_eq_false_2 (MOIS r ∈ mos))
        by done; try done.
    destruct Hn; done.
Qed.

Lemma df_filtre_filter df ys ms mos :
  df_filtre df ys ms mos = filter (selected ys ms mos) df.
Proof.
  induction df as [|r df IH]; [done|].
  rewrite df_filtre_cons, filter_cons, IH. done.
Qed.

(** C6: the filter returns exactly the records that satisfy the three
    membership tests, in input order (it is the order-preserving filter of
    the input by the conjunction, hence a sublist of it that contains a
    record iff the record is in the input and selected), and it is empty
    as soon as one of the three selections is empty. *)
Theorem df_filtre_spec (df : DataFrame) (years : list Z) (members months : list string) :
  df_filtre df years members months = filter (selected years members months) df
  ∧ df_filtre df years members months `sublist_of` df
  ∧ (∀ r, r ∈ df_filtre df years members months
          ↔ r ∈ df ∧ ANNEE r ∈ years ∧ NOM r ∈ members ∧ MOIS r ∈ months)
  ∧ df_filtre df [] members months = []
  ∧ df_filtre df years [] months = []
  ∧ df_filtre df years members [] = [].
Proof.
  rewrite !df_filtre_filter. split_and!.
  - done.
  - apply sublist_filter.
  - intros r. rewrite list_elem_of_filter. unfold selected. tauto.
  - induction df as [|r df IH]; [done|].
    rewrite filter_cons_False; [done|]. intros (H & _ & _). by apply elem_of_nil in H.
  - induction df as [|r df IH]; [done|].
    rewrite filter_cons_False; [done|]. intros (_ & H & _). by apply elem_of_nil in H.
  - induction df as [|r df IH]; [done|].
    rewrite filter_cons_False; [done|]. intros (_ & _ & H). by apply elem_of_nil in H.
Qed.

(** C7: filtering a filtered frame again with the same selections changes
    nothing. *)
Theorem df_filtre_idempotent (df : DataFrame) (years : list Z) (members months : list string) :
  df_filtre (df_filtre df years members months) years members months
  = df_filtre df years members months.
Proof.
  rewrite !df_filtre_filter.
  induction df as [|r df IH]; [done|].
  rewrite filter_cons. destruct (decide _) as [Hs|Hs]; [|done].
  rewrite filter_cons_True by done. by rewrite IH.
Qed.

(** ** Key indicators *)

Lemma count_true_cons b m :
  pd.count_true (b :: m) = ((if b then 1 else 0) + pd.count_true m)%nat.
Proof. done. Qed.

(** C8: when no amount is negative, every filtered record is counted once,
    either as a payment (amount > 0) or as a non-payment (amount = 0). *)
Theorem paid_plus_unpaid (dff : DataFrame) :
  Forall (λ r, 0 ≤ MONTANT r) dff →
  (nb_paiements dff + nb_non_paiements dff)%nat = length dff.
Proof.
  unfold nb_paiements, nb_non_paiements.
  induction 1 as [|r dff Hr _ IH]; [done|].
  cbn [fmap list_fmap length]. rewrite !count_true_cons.
  destruct (decide (MONTANT r = 0)) as [Hz|Hz].
  - rewrite (bool_decide_eq_true_2 (MONTANT r = 0)) by done.
    rewrite (bool_decide_eq_false_2 (MONTANT r > 0)) by lia. lia.
  - rewrite (bool_decide_eq_false_2 (MONTANT r = 0)) by done.
    rewrite (bool_decide_eq_true_2 (MONTANT r > 0)) by lia. lia.
Qed.

Lemma paid_plus_unpaid_witness :
  (nb_paiements [Row "Alice" 2024 "Janvier" 5000; Row "Alice" 2024 "Février" 0]
   + nb_non_paiements [Row "Alice" 2024 "Janvier" 5000; Row "Alice" 2024 "Février" 0])%nat
  = 2%nat.
Proof.
  apply (paid_plus_unpaid [Row "Alice" 2024 "Janvier" 5000; Row "Alice" 2024 "Février" 0]).
  repeat constructor; simpl; lia.
Defined.

(** ** Sums, sorted keys and label lookup *)

Lemma wrap_range z : - 2 ^ 63 ≤ int64.wrap z < 2 ^ 63.
Proof.
  unfold int64.wrap. pose proof (Z.mod_pos_bound (z + 2 ^ 63) (2 ^ 64)). lia.
Qed.

Lemma wrap_small z : - 2 ^ 63 ≤ z < 2 ^ 63 → int64.wrap z = z.
Proof. intros Hz. unfold int64.wrap. rewrite Z.mod_small; lia. Qed.

Lemma wrap_add_l a b : int64.wrap (int64.wrap a + b) = int64.wrap (a + b).
Proof.
  unfold int64.wrap. f_equal.
  replace ((a + 2 ^ 63) mod 2 ^ 64 - 2 ^ 63 + b + 2 ^ 63)
    with ((a + 2 ^ 63) mod 2 ^ 64 + b) by lia.
  rewrite Zplus_mod_idemp_l. f_equal. lia.
Qed.

Lemma wrap_add_r a b : int64.wrap (a + int64.wrap b) = int64.wrap (a + b).
Proof. rewrite (Z.add_comm a), wrap_add_l. f_equal. lia. Qed.

Lemma exact_sum_cons x s : exact_sum (x :: s) = x + exact_sum s.
Proof. done. Qed.

Lemma fold_left_add_wrap (s : list Z) (acc : Z) :
  int64.wrap acc = acc →
  fold_left int64.add s acc = int64.wrap (acc + exact_sum s).
Proof.
  revert acc. induction s as [|x s IH]; intros acc Hacc.
  - cbn. by rewrite Z.add_0_r.
  - cbn [fold_left]. rewrite IH.
    + unfold int64.add. rewrite wrap_add_l, exact_sum_cons. f_equal. lia.
    + unfold int64.add.
      rewrite <-(Z.add_0_r (int64.wrap (acc + x))) at 1. by rewrite wrap_add_l, Z.add_0_r.
Qed.

(** The pandas sum of an int64 series is the exact sum of its entries
    brought back into the int64 range. *)
Lemma sum_wrap (s : list Z) : pd.sum s = int64.wrap (exact_sum s).
Proof. unfold pd.sum. by rewrite fold_left_add_wrap. Qed.

Lemma sum_exact (s : list Z) :
  - 2 ^ 63 ≤ exact_sum s < 2 ^ 63 → pd.sum s = exact_sum s.
Proof. intros Hs. by rewrite sum_wrap, wrap_small. Qed.

Lemma wrap_exact_sum_wrap (l : list Z) :
  int64.wrap (exact_sum (int64.wrap <$> l)) = int64.wrap (exact_sum l).
Proof.
  induction l as [|x l IH]; [done|].
  cbn [fmap list_fmap]. rewrite !exact_sum_cons, wrap_add_l.
  by rewrite <-wrap_add_r, IH, wrap_add_r.
Qed.

Section sorted_unique.
Context {A : Type} `{EqDecision A} (R : relation A) `{RelDecision A A R}.

Lemma sorted_unique_Permutation col : pd.sorted_unique R col ≡ₚ remove_dups col.
Proof. apply merge_sort_Permutation. Qed.

Lemma NoDup_sorted_unique col : NoDup (pd.sorted_unique R col).
Proof. rewrite sorted_unique_Permutation. apply NoDup_remove_dups. Qed.

Lemma elem_of_sorted_unique col x : x ∈ pd.sorted_unique R col ↔ x ∈ col.
Proof. rewrite sorted_unique_Permutation. apply elem_of_remove_dups. Qed.
End sorted_unique.

Section loc.
Context {K V : Type} `{EqDecision K}.

(** Looking a label up in a series tabulated over a list of labels. *)
Lemma loc_tabulate (f : K → V) (ks : list K) (k : K) :
  pd.loc ((λ k, (k, f k)) <$> ks) k = if decide (k ∈ ks) then Some (f k) else None.
Proof.
  induction ks as [|k' ks IH]; [done|].
  cbn [fmap list_fmap pd.loc]. destruct (decide (k' = k)) as [->|Hne].
  - rewrite decide_True; [done|]. left.
  - rewrite IH. apply decide_ext. rewrite elem_of_cons. intuition congruence.
Qed.

Lemma loc_Some_elem_of (s : list (K * V)) k v :
  NoDup s.*1 → pd.loc s k = Some v ↔ (k, v) ∈ s.
Proof.
  induction s as [|[k' v'] s IH]; intros Hnd.
  - split; [done|]. by intros ?%elem_of_nil.
  - apply NoDup_cons in Hnd as [Hk' Hnd]. cbn [pd.loc].
    rewrite elem_of_cons. destruct (decide (k' = k)) as [->|Hne].
    + split; [intros [= ->]; by left|].
      intros [[= ->]|Hin]; [done|]. destruct Hk'.
      apply list_elem_of_fmap. by exists (k, v).
    + rewrite IH by done. split; [by right|]. intros [[= ? ?]|?]; [congruence|done].
Qed.

Lemma loc_Permutation (s1 s2 : list (K * V)) k :
  NoDup s1.*1 → s1 ≡ₚ s2 → pd.loc s1 k = pd.loc s2 k.
Proof.
  intros Hnd Hp. assert (NoDup s2.*1) as Hnd2 by (by rewrite <-Hp).
  apply option_eq. intros v. rewrite !loc_Some_elem_of by done. by rewrite Hp.
Qed.
End loc.

(** ** Group-by totals *)

Section groupby.
Context {K : Type} `{EqDecision K} (key : row → K).

Lemma total_split (df : DataFrame) (k : K) :
  exact_sum (MONTANT <$> df)
  = exact_group_total key df k + exact_sum (MONTANT <$> filter (λ r, key r ≠ k) df).
Proof.
  unfold exact_group_total. induction df as [|r df IH]; [done|].
  rewrite !filter_cons. cbn [fmap list_fmap]. rewrite exact_sum_cons, IH.
  destruct (decide (key r = k)); destruct (decide (key r ≠ k)); try done;
    cbn [fmap list_fmap]; rewrite ?exact_sum_cons; lia.
Qed.

Lemma group_total_other (df : DataFrame) (k k' : K) :
  k' ≠ k →
  exact_group_total key (filter (λ r, key r ≠ k) df) k' = exact_group_total key df k'.
Proof.
  intros Hne. unfold exact_group_total. rewrite list_filter_filter. f_equal. f_equal.
  apply list_filter_iff. intros r. split; [by intros [? _]|]. intros <-. done.
Qed.

(** Regrouping, on exact sums: the exact group totals over a
    duplicate-free list of keys that covers the frame add up to the exact
    total of the frame. *)
Lemma group_totals_exact (ks : list K) (df : DataFrame) :
  NoDup ks → Forall (λ r, key r ∈ ks) df →
  exact_sum (exact_group_total key df <$> ks) = exact_sum (MONTANT <$> df).
Proof.
  intros Hnd. revert df. induction Hnd as [|k ks Hk Hnd IH]; intros df Hcov.
  - destruct df as [|r df]; [done|]. apply Forall_cons in Hcov as [[]%elem_of_nil _].
  - cbn [fmap list_fmap]. rewrite exact_sum_cons, (total_split df k). f_equal.
    rewrite <-(IH (filter (λ r, key r ≠ k) df)).
    + f_equal. apply Forall_fmap_ext_1, Forall_forall. intros k' Hk'.
      symmetry. apply group_total_other. by intros ->.
    + apply Forall_forall. intros r [Hr Hin]%list_elem_of_filter.
      rewrite Forall_forall in Hcov. apply Hcov, elem_of_cons in Hin as [?|?]; done.
Qed.

Lemma group_total_wrap (df : DataFrame) (k : K) :
  group_total key df k = int64.wrap (exact_group_total key df k).
Proof. apply sum_wrap. Qed.

(** Regrouping, in int64 arithmetic: the int64 sum of the int64 group
    totals is the int64 total of the frame. *)
Lemma group_totals_sum (ks : list K) (df : DataFrame) :
  NoDup ks → Forall (λ r, key r ∈ ks) df →
  pd.sum (group_total key df <$> ks) = pd.sum (MONTANT <$> df).
Proof.
  intros Hnd Hcov. rewrite !sum_wrap, <-(group_totals_exact ks df Hnd Hcov).
  rewrite <-(wrap_exact_sum_wrap (exact_group_total key df <$> ks)).
  rewrite <-list_fmap_compose. do 2 f_equal.
  apply list_fmap_ext. intros _ k _. apply group_total_wrap.
Qed.

Lemma exact_sum_filter_le (P : row → Prop) `{∀ r, Decision (P r)} (df : DataFrame) :
  Forall (λ r, 0 ≤ MONTANT r) df →
  0 ≤ exact_sum (MONTANT <$> filter P df) ≤ exact_sum (MONTANT <$> df).
Proof.
  induction 1 as [|r df Hr _ IH]; [done|].
  rewrite filter_cons. case_decide; cbn [fmap list_fmap]; rewrite ?exact_sum_cons; lia.
Qed.

(** Without overflow, that is with non-negative amounts whose exact sum
    is below 2^63, the int64 sum of any part of the frame is exact. *)
Lemma sum_filter_exact (P : row → Prop) `{∀ r, Decision (P r)} (df : DataFrame) :
  Forall (λ r, 0 ≤ MONTANT r) df → exact_sum (MONTANT <$> df) < 2 ^ 63 →
  pd.sum (MONTANT <$> filter P df) = exact_sum (MONTANT <$> filter P df).
Proof.
  intros Hpos Hlt. apply sum_exact.
  pose proof (exact_sum_filter_le P df Hpos). lia.
Qed.

Lemma group_total_exact (df : DataFrame) (k : K) :
  Forall (λ r, 0 ≤ MONTANT r) df → exact_sum (MONTANT <$> df) < 2 ^ 63 →
  group_total key df k = exact_group_total key df k.
Proof. intros Hpos Hlt. by apply (sum_filter_exact _). Qed.

Lemma group_totals_exact_sum (ks : list K) (df : DataFrame) :
  NoDup ks → Forall (λ r, key r ∈ ks) df →
  Forall (λ r, 0 ≤ MONTANT r) df → exact_sum (MONTANT <$> df) < 2 ^ 63 →
  exact_sum (group_total key df <$> ks) = exact_sum (MONTANT <$> df).
Proof.
  intros Hnd Hcov Hpos Hlt. rewrite <-(group_totals_exact ks df Hnd Hcov). f_equal.
  apply list_fmap_ext. intros _ k _. by apply group_total_exact.
Qed.

Lemma groupby_sum_values (R : relation K) `{RelDecision K K R} (df : DataFrame) :
  (pd.groupby_sum R key df).*2 = group_total key df <$> pd.sorted_unique R (key <$> df).
Proof. unfold pd.groupby_sum. rewrite <-list_fmap_compose. done. Qed.

Lemma groupby_sum_total (R : relation K) `{RelDecision K K R} (df : DataFrame) :
  pd.sum (pd.groupby_sum R key df).*2 = pd.sum (MONTANT <$> df).
Proof.
  rewrite groupby_sum_values. apply group_totals_sum.
  - apply NoDup_sorted_unique.
  - apply Forall_forall. intros r Hr.
    apply elem_of_sorted_unique, list_elem_of_fmap_2, Hr.
Qed.

Lemma groupby_sum_loc (R : relation K) `{RelDecision K K R} (df : DataFrame) (k : K) :
  pd.loc (pd.groupby_sum R key df) k
  = if decide (k ∈ key <$> df) then Some (group_total key df k) else None.
Proof.
  unfold pd.groupby_sum, group_total.
  rewrite (loc_tabulate (λ k, pd.sum (MONTANT <$> filter (λ r, key r = k) df))).
  apply decide_ext, elem_of_sorted_unique.
Qed.
End groupby.

Lemma total_cotisations_exact (dff : DataFrame) :
  Forall (λ r, 0 ≤ MONTANT r) dff → exact_sum (MONTANT <$> dff) < 2 ^ 63 →
  total_cotisations dff = exact_sum (MONTANT <$> dff).
Proof.
  intros Hpos Hlt. apply sum_exact.
  pose proof (exact_sum_filter_le (λ _, True) dff Hpos). lia.
Qed.

Lemma groupby_sum_exact_total {K} `{EqDecision K} (R : relation K) `{RelDecision K K R}
    (key : row → K) (dff : DataFrame) :
  Forall (λ r, 0 ≤ MONTANT r) dff → exact_sum (MONTANT <$> dff) < 2 ^ 63 →
  exact_sum (pd.groupby_sum R key dff).*2 = exact_sum (MONTANT <$> dff).
Proof.
  intros Hpos Hlt. rewrite groupby_sum_values.
  apply group_totals_exact_sum; [apply NoDup_sorted_unique| |done..].
  apply Forall_forall. intros r Hr. apply elem_of_sorted_unique, list_elem_of_fmap_2, Hr.
Qed.

(** C9, as the code has it: on an integer (int64) amount column, the
    by-year totals, the by-member totals and the overall total agree when
    they are added in the int64 arithmetic of the column, that is modulo
    2^64; they agree as exact integers, and with the exact sum of the
    amounts, whenever no amount is negative and the exact sum of the
    amounts is below 2^63. *)
Theorem totals_agree (dff : DataFrame) :
  int64_column dff →
  (pd.sum (total_par_annee dff).*2 = pd.sum (total_par_membre dff).*2
   ∧ pd.sum (total_par_annee dff).*2 = total_cotisations dff
   ∧ pd.sum (total_par_membre dff).*2 = total_cotisations dff)
  ∧ (Forall (λ r, 0 ≤ MONTANT r) dff → exact_sum (MONTANT <$> dff) < 2 ^ 63 →
     exact_sum (total_par_annee dff).*2 = exact_sum (MONTANT <$> dff)
     ∧ exact_sum (total_par_membre dff).*2 = exact_sum (MONTANT <$> dff)
     ∧ total_cotisations dff = exact_sum (MONTANT <$> dff)).
Proof.
  intros _. split.
  - unfold total_par_annee, total_par_membre, total_cotisations.
    rewrite !groupby_sum_total. done.
  - intros Hpos Hlt. split_and!.
    + by apply groupby_sum_exact_total.
    + by apply groupby_sum_exact_total.
    + by apply total_cotisations_exact.
Qed.

Lemma totals_agree_witness :
  exact_sum (total_par_annee scenario).*2 = 5000
  ∧ exact_sum (total_par_membre scenario).*2 = 5000
  ∧ total_cotisations scenario = 5000.
Proof.
  assert (int64_column scenario) as Hcol.
  { unfold scenario. repeat constructor; simpl; lia. }
  assert (Forall (λ r, 0 ≤ MONTANT r) scenario) as Hpos.
  { unfold scenario. repeat constructor; simpl; lia. }
  assert (exact_sum (MONTANT <$> scenario) < 2 ^ 63) as Hlt by (vm_compute; reflexivity).
  destruct (totals_agree scenario Hcol) as [_ Hex].
  destruct (Hex Hpos Hlt) as (-> & -> & ->). by vm_compute.
Defined.

(** C9 fails as stated: two members with 2^62 each, both amounts within
    int64.  The by-member totals are 2^62 and 2^62, which add up to 2^63;
    the single by-year total and the overall total have wrapped around
    to -2^63. *)
Lemma totals_overflow :
  int64_column debordement
  ∧ (total_par_membre debordement).*2 = [2 ^ 62; 2 ^ 62]
  ∧ (total_par_annee debordement).*2 = [- 2 ^ 63]
  ∧ total_cotisations debordement = - 2 ^ 63
  ∧ exact_sum (total_par_membre debordement).*2 = 2 ^ 63
  ∧ exact_sum (total_par_membre debordement).*2
    ≠ exact_sum (total_par_annee debordement).*2
  ∧ exact_sum (total_par_membre debordement).*2 ≠ total_cotisations debordement.
Proof.
  split_and!.
  - unfold debordement, int64_column. repeat constructor; cbn [MONTANT]; lia.
  - by vm_compute.
  - by vm_compute.
  - by vm_compute.
  - by vm_compute.
  - vm_compute. discriminate.
  - vm_compute. discriminate.
Qed.

(** ** Totals by month *)



(** ** The member-by-month table *)



Lemma pivot_index (dff : DataFrame) (n : string) :
  n ∈ pd.index (pivot dff) ↔ n ∈ NOM <$> dff.
Proof.
  unfold pivot, pd.pivot_table, pd.unstack, pd.groupby_sum. cbn [pd.index].
  rewrite elem_of_sorted_unique, <-list_fmap_compose, list_elem_of_fmap.
  setoid_rewrite elem_of_sorted_unique. setoid_rewrite list_elem_of_fmap. split.
  - intros (k & -> & r & -> & Hr). by exists r.
  - intros (r & -> & Hr). exists (NOM r, MOIS r). split; [done|]. by exists r.
Qed.

Lemma pivot_columns (dff : DataFrame) (m : string) :
  m ∈ pd.columns (pivot dff) ↔ m ∈ MOIS <$> dff.
Proof.
  unfold pivot, pd.pivot_table, pd.unstack, pd.groupby_sum. cbn [pd.columns].
  rewrite elem_of_sorted_unique, <-list_fmap_compose, list_elem_of_fmap.
  setoid_rewrite elem_of_sorted_unique. setoid_rewrite list_elem_of_fmap. split.
  - intros (k & -> & r & -> & Hr). by exists r.
  - intros (r & -> & Hr). exists (NOM r, MOIS r). split; [done|]. by exists r.
Qed.

(** The cell of two labels of the table: the value of the group of the
    pair, or the fill value 0 when no row has the pair. *)
Lemma pivot_agged_loc (dff : DataFrame) (n m : string) :
  default 0 (pd.loc (pd.groupby_sum pd.pair_le (λ r, (NOM r, MOIS r)) dff) (n, m))
  = if decide (Exists (λ r, NOM r = n ∧ MOIS r = m) dff) then pair_total dff n m else 0.
Proof.
  rewrite groupby_sum_loc.
  destruct (decide (Exists _ dff)) as [He|He].
  - rewrite decide_True.
    + cbn [from_option id]. unfold group_total, pair_total. f_equal. f_equal.
      apply list_filter_iff. intros r. split; [by intros [= -> ->]|by intros [-> ->]].
    + apply Exists_exists in He as (r & Hr & <- & <-).
      by apply (list_elem_of_fmap_2 (λ r, (NOM r, MOIS r))).
  - rewrite decide_False; [done|].
    intros (r & [= -> ->] & Hr)%list_elem_of_fmap. apply He, Exists_exists. eauto.
Qed.





(** ** The late-payment loop *)

(** On the canonical names the dictionary [mois_map] gives the position
    in [mois], counted from 1. *)
Lemma mois_map_canonical (m : string) :
  m ∈ mois → ∃ i, mois_map !! m = Some i ∧ canonical_month_index m = Some i.
Proof.
  unfold mois. intros Hm.
  repeat (apply elem_of_cons in Hm as [->|Hm]; [eexists; split; by vm_compute|]).
  by apply elem_of_nil in Hm.
Qed.

(** On any other name the lookup raises. *)
Lemma mois_map_unknown (m : string) : m ∉ mois → mois_map !! m = None.
Proof. intros Hm. by apply not_elem_of_list_to_map_1. Qed.

Lemma retards_body_canonical (today : date) (acc : list string) (r : row) :
  MOIS r ∈ mois →
  retards_body today acc r
  = Some (if decide (in_arrears today r) then acc ++ [NOM r] else acc)%list.
Proof.
  intros (i & Hmap & Hidx)%mois_map_canonical.
  assert (in_arrears today r
          ↔ (ANNEE r < year today ∨ (ANNEE r = year today ∧ i < month today))
            ∧ MONTANT r = 0) as Hiff.
  { unfold in_arrears, precedes. by rewrite Hidx. }
  unfold retards_body. rewrite Hmap. cbn [mbind option_bind].
  destruct (decide (in_arrears today r)) as [Ha|Ha]; rewrite Hiff in Ha;
    repeat case_bool_decide; cbn [orb andb]; try done; exfalso; lia.
Qed.

Lemma iterrows_retards (today : date) (acc : list string) (dff : DataFrame) :
  Forall (λ r, MOIS r ∈ mois) dff →
  iterrows (retards_body today) acc dff
  = Some (acc ++ (NOM <$> filter (in_arrears today) dff))%list.
Proof.
  intros Hcan. revert acc. induction Hcan as [|r dff Hr _ IH]; intros acc.
  - cbn. by rewrite app_nil_r.
  - cbn [iterrows]. rewrite retards_body_canonical by done. cbn [mbind option_bind].
    rewrite IH, filter_cons. case_decide; [|done].
    cbn [fmap list_fmap]. by rewrite <-app_assoc.
Qed.

Lemma retards_canonical (today : date) (dff : DataFrame) :
  Forall (λ r, MOIS r ∈ mois) dff →
  retards today dff = Some (NOM <$> filter (in_arrears today) dff).
Proof. intros Hcan. unfold retards. by rewrite iterrows_retards. Qed.

(** The month selector only offers the canonical names, so every month of
    a filtered frame is canonical. *)
Lemma df_filtre_canonical (df : DataFrame) ys ms (mos : list string) :
  mos ⊆ mois → Forall (λ r, MOIS r ∈ mois) (df_filtre df ys ms mos).
Proof.
  intros Hsub. apply Forall_forall. intros r.
  rewrite df_filtre_filter, list_elem_of_filter. intros [(_ & _ & Hm) _]. by apply Hsub.
Qed.

Lemma not_yet_due_not_in_arrears (today : date) (r : row) :
  not_yet_due today r → ¬ in_arrears today r.
Proof.
  unfold not_yet_due, in_arrears, precedes.
  destruct (canonical_month_index (MOIS r)); [|done]. lia.
Qed.

(** C2: on a filtered frame the loop collects exactly the records whose
    (year, month) is strictly before the one of the reference date and
    whose amount is 0: a record of the frame is flagged iff it is in
    arrears, and a record of the reference month or later is never
    flagged. *)
Theorem retards_flags_iff (today : date) (df : DataFrame) (annee_select : list Z)
    (membre_select mois_select : list string) (r : row) :
  mois_select ⊆ mois →
  r ∈ df_filtre df annee_select membre_select mois_select →
  retards today (df_filtre df annee_select membre_select mois_select)
  = Some (NOM <$> filter (in_arrears today)
                    (df_filtre df annee_select membre_select mois_select))
  ∧ (retards today [r] = Some [NOM r] ↔ in_arrears today r)
  ∧ (retards today [r] = Some [] ↔ ¬ in_arrears today r)
  ∧ (not_yet_due today r → retards today [r] = Some []).
Proof.
  intros Hsub Hr. pose proof (df_filtre_canonical df annee_select membre_select _ Hsub) as Hcan.
  assert (MOIS r ∈ mois) as Hm by (rewrite Forall_forall in Hcan; by apply Hcan).
  assert (retards today [r] = Some (if decide (in_arrears today r) then [NOM r] else []))
    as Hone.
  { rewrite retards_canonical by (by apply Forall_singleton).
    rewrite filter_cons, filter_nil. by case_decide. }
  split_and!.
  - by apply retards_canonical.
  - rewrite Hone. case_decide; [done|]. split; [done|tauto].
  - rewrite Hone. case_decide; [|done]. split; [done|tauto].
  - intros Hdue%not_yet_due_not_in_arrears. rewrite Hone. by case_decide.
Qed.

Lemma retards_flags_iff_witness :
  retards (Date 2024 3 1) (df_filtre scenario [2024] ["Alice"; "Bob"] mois)
  = Some ["Alice"; "Bob"].
Proof.
  assert (mois ⊆ mois) as Hsub by done.
  assert (Row "Bob" 2024 "Janvier" 0 ∈ df_filtre scenario [2024] ["Alice"; "Bob"] mois) as Hr.
  { apply (bool_decide_unpack _). by vm_compute. }
  destruct (retards_flags_iff (Date 2024 3 1) scenario [2024] ["Alice"; "Bob"] mois
              (Row "Bob" 2024 "Janvier" 0) Hsub Hr) as [-> _].
  by vm_compute.
Defined.

(** C10: when every month of the frame is a canonical name, every lookup
    in [mois_map] succeeds and the late-payment pass ends without raising,
    with its list of names and its tally. *)
Theorem retards_never_raises (today : date) (dff : DataFrame) :
  Forall (λ r, MOIS r ∈ mois) dff →
  Forall (λ r, is_Some (mois_map !! MOIS r)) dff
  ∧ is_Some (retards today dff)
  ∧ is_Some (retards_df today dff).
Proof.
  intros Hcan. split_and!.
  - eapply Forall_impl; [done|]. intros r (i & -> & _)%mois_map_canonical. eauto.
  - rewrite retards_canonical by done. eauto.
  - unfold retards_df. rewrite retards_canonical by done. eauto.
Qed.

Lemma retards_never_raises_witness :
  is_Some (retards (Date 2024 3 1) scenario).
Proof.
  apply (retards_never_raises (Date 2024 3 1) scenario).
  unfold scenario. repeat constructor; apply (bool_decide_unpack _); by vm_compute.
Defined.

(** ** The tally of unpaid months *)

Lemma elem_of_appearance {A} `{EqDecision A} (col : list A) (x : A) :
  x ∈ pd.appearance col ↔ x ∈ col.
Proof.
  induction col as [|y col IH]; [done|].
  cbn [pd.appearance]. rewrite !elem_of_cons, list_elem_of_filter, IH.
  destruct (decide (x = y)); tauto.
Qed.

Lemma NoDup_appearance {A} `{EqDecision A} (col : list A) : NoDup (pd.appearance col).
Proof.
  induction col as [|y col IH]; [constructor|].
  cbn [pd.appearance]. apply NoDup_cons. split.
  - rewrite list_elem_of_filter. tauto.
  - by apply NoDup_filter.
Qed.

Lemma insert_desc_Permutation e t : pd.insert_desc e t ≡ₚ e :: t.
Proof.
  induction t as [|e' t IH]; [done|].
  cbn [pd.insert_desc]. case_decide; [done|]. rewrite IH. apply perm_swap.
Qed.

Lemma sort_desc_Permutation t : pd.sort_desc t ≡ₚ t.
Proof.
  induction t as [|e t IH]; [done|].
  cbn [pd.sort_desc]. by rewrite insert_desc_Permutation, IH.
Qed.

Lemma Sorted_insert_desc e t : Sorted pd.count_ge t → Sorted pd.count_ge (pd.insert_desc e t).
Proof.
  induction 1 as [|e' t Hs IH Hhd]; [by repeat constructor|].
  cbn [pd.insert_desc]. case_decide as Hge.
  - by repeat constructor.
  - constructor; [done|]. destruct Hhd as [|e'' t Hrel]; cbn [pd.insert_desc].
    + constructor. unfold pd.count_ge in *. lia.
    + case_decide; constructor; [|done]. unfold pd.count_ge in *. lia.
Qed.

Lemma Sorted_sort_desc t : Sorted pd.count_ge (pd.sort_desc t).
Proof.
  induction t as [|e t IH]; [constructor|].
  cbn [pd.sort_desc]. by apply Sorted_insert_desc.
Qed.

(** Up to the order, the tally has one entry per distinct value, with
    its number of occurrences. *)
Lemma value_counts_entries (col : list string) :
  pd.value_counts col
  ≡ₚ (λ k, (k, length (filter (λ x, x = k) col))) <$> pd.appearance col.
Proof. apply sort_desc_Permutation. Qed.

Lemma value_counts_keys (col : list string) :
  ((λ k, (k, length (filter (λ x, x = k) col))) <$> pd.appearance col).*1
  = pd.appearance col.
Proof. rewrite <-list_fmap_compose. apply list_fmap_id. Qed.

Lemma NoDup_value_counts (col : list string) : NoDup (pd.value_counts col).*1.
Proof.
  rewrite value_counts_entries, value_counts_keys.
  apply NoDup_appearance.
Qed.

(** The tally has an entry for the names that occur, with their number
    of occurrences. *)
Lemma value_counts_loc (col : list string) (n : string) :
  pd.loc (pd.value_counts col) n
  = if decide (n ∈ col) then Some (length (filter (λ x, x = n) col)) else None.
Proof.
  rewrite <-(loc_Permutation _ _ n
               ltac:(rewrite value_counts_keys; apply NoDup_appearance)
               (symmetry (value_counts_entries col))).
  rewrite (loc_tabulate (λ k, length (filter (λ x, x = k) col))).
  apply decide_ext, elem_of_appearance.
Qed.

Lemma count_names (P : row → Prop) `{∀ r, Decision (P r)} (dff : DataFrame) (n : string) :
  length (filter (λ x, x = n) (NOM <$> filter P dff))
  = length (filter (λ r, NOM r = n ∧ P r) dff).
Proof.
  induction dff as [|r dff IH]; [done|].
  rewrite (filter_cons P), (filter_cons (λ r, NOM r = n ∧ P r)).
  destruct (decide (P r)) as [HP|HP].
  - cbn [fmap list_fmap]. rewrite filter_cons.
    destruct (decide (NOM r = n)) as [Hn|Hn].
    + rewrite decide_True by done. cbn [length]. by rewrite IH.
    + rewrite decide_False by tauto. done.
  - rewrite decide_False by tauto. done.
Qed.

Lemma filter_length_0 {A} (P : A → Prop) `{∀ x, Decision (P x)} (l : list A) :
  length (filter P l) = 0%nat ↔ Forall (λ x, ¬ P x) l.
Proof.
  induction l as [|x l IH]; [by split; [constructor|]|].
  rewrite filter_cons, Forall_cons. case_decide; cbn [length]; [|tauto].
  split; [done|tauto].
Qed.

(** C3, as the code has it: the tally gives each member the number of
    records of the filtered frame that are strictly before the reference
    month with amount 0, every row counting, duplicates included; a
    member without such a record has no entry. *)
Theorem retards_df_counts_rows (today : date) (df : DataFrame) (annee_select : list Z)
    (membre_select mois_select : list string) (n : string) :
  mois_select ⊆ mois →
  ∃ tally,
    retards_df today (df_filtre df annee_select membre_select mois_select) = Some tally
    ∧ NoDup tally.*1
    ∧ pd.loc tally n
      = let c := arrears_rows today
                   (df_filtre df annee_select membre_select mois_select) n in
        if decide (c = 0%nat) then None else Some c.
Proof.
  intros Hsub. unfold retards_df.
  rewrite retards_canonical by (by apply df_filtre_canonical).
  eexists. split_and!; [done|apply NoDup_value_counts|].
  set (dff := df_filtre _ _ _ _). rewrite value_counts_loc. cbn zeta.
  unfold arrears_rows. rewrite count_names.
  destruct (decide (n ∈ _)) as [Hn|Hn]; case_decide as Hc; try done.
  - exfalso. apply (filter_length_0 _) in Hc. rewrite Forall_forall in Hc.
    apply list_elem_of_fmap in Hn as (r & -> & [Ha Hr]%list_elem_of_filter).
    by apply (Hc r Hr).
  - exfalso. apply Hc, (filter_length_0 _), Forall_forall. intros r Hr [<- Ha].
    apply Hn, list_elem_of_fmap_2, list_elem_of_filter. done.
Qed.

Lemma retards_df_counts_rows_witness :
  ∃ tally,
    retards_df (Date 2024 3 1) (df_filtre scenario [2024] ["Alice"; "Bob"] mois) = Some tally
    ∧ NoDup tally.*1
    ∧ pd.loc tally "Bob" = Some 1%nat.
Proof.
  assert (mois ⊆ mois) as Hsub by done.
  destruct (retards_df_counts_rows (Date 2024 3 1) scenario [2024] ["Alice"; "Bob"] mois
              "Bob" Hsub) as (tally & Ht & Hnd & Hloc).
  exists tally. split_and!; [done..|]. rewrite Hloc. by vm_compute.
Defined.

(** C3 fails as stated: a (member, year, month) entered twice is one
    distinct pair in arrears but counts for two unpaid months. *)
Lemma retards_df_counts_duplicates :
  retards_df (Date 2024 3 1) (df_filtre doublon [2024] ["Alice"] mois)
  = Some [("Alice", 2%nat)]
  ∧ arrears_pairs (Date 2024 3 1) (df_filtre doublon [2024] ["Alice"] mois) "Alice" = 1%nat.
Proof. split; by vm_compute. Qed.

(** When no (member, year, month) is entered twice, counting rows and
    counting distinct pairs agree. *)
Lemma arrears_rows_pairs (today : date) (dff : DataFrame) (n : string) :
  NoDup ((λ r, (NOM r, ANNEE r, MOIS r)) <$> dff) →
  arrears_rows today dff n = arrears_pairs today dff n.
Proof.
  intros Hnd. unfold arrears_rows, arrears_pairs.
  rewrite size_list_to_set; [by rewrite length_fmap|].
  induction dff as [|r dff IH]; [constructor|].
  cbn [fmap list_fmap] in Hnd. apply NoDup_cons in Hnd as [Hr Hnd].
  rewrite filter_cons. case_decide as Hp; [|by apply IH].
  cbn [fmap list_fmap]. apply NoDup_cons. split; [|by apply IH].
  intros (r' & [= Hy Hm] & [[Hn' _] Hr']%list_elem_of_filter)%list_elem_of_fmap.
  apply Hr, list_elem_of_fmap. exists r'. split; [|done].
  destruct Hp as [Hn _]. congruence.
Qed.

(** ** Records with an unknown month *)

Lemma df_filtre_app (df1 df2 : DataFrame) ys ms mos :
  df_filtre (df1 ++ df2) ys ms mos
  = (df_filtre df1 ys ms mos ++ df_filtre df2 ys ms mos)%list.
Proof. rewrite !df_filtre_filter. apply filter_app. Qed.

Lemma run_is_Some (df : DataFrame) ys ms (mos : list string) (today : date) :
  mos ⊆ mois → is_Some (run df ys ms mos today).
Proof.
  intros Hsub. unfold run, retards_df.
  rewrite retards_canonical by (by apply df_filtre_canonical).
  cbn [fmap option_fmap option_map mbind option_bind]. eauto.
Qed.

(** C5, as the code has it: a record whose month is not a canonical name
    never passes the filter, whose month selection only holds canonical
    names; none of the computations of the run raises, so no error is
    shown, and all its views (by month, table, arrears and the others)
    are those of the input without the record. *)
Theorem unknown_month_dropped (df1 : DataFrame) (r : row) (df2 : DataFrame)
    (annee_select : list Z) (membre_select mois_select : list string) (today : date) :
  mois_select ⊆ mois →
  MOIS r ∉ mois →
  (r ∉ df_filtre (df1 ++ r :: df2) annee_select membre_select mois_select)
  ∧ df_filtre (df1 ++ r :: df2) annee_select membre_select mois_select
    = df_filtre (df1 ++ df2) annee_select membre_select mois_select
  ∧ is_Some (run (df1 ++ r :: df2) annee_select membre_select mois_select today)
  ∧ run (df1 ++ r :: df2) annee_select membre_select mois_select today
    = run (df1 ++ df2) annee_select membre_select mois_select today.
Proof.
  intros Hsub Hr.
  assert (¬ selected annee_select membre_select mois_select r) as Hns.
  { intros (_ & _ & Hm). by apply Hr, Hsub. }
  assert (df_filtre (df1 ++ r :: df2) annee_select membre_select mois_select
          = df_filtre (df1 ++ df2) annee_select membre_select mois_select) as Heq.
  { rewrite !df_filtre_app, df_filtre_cons. by rewrite decide_False. }
  split_and!.
  - rewrite df_filtre_filter, list_elem_of_filter. tauto.
  - done.
  - by apply run_is_Some.
  - unfold run. by rewrite Heq.
Qed.

Lemma unknown_month_dropped_witness :
  run mois_inconnu [2024] ["Alice"; "Bob"] mois (Date 2024 3 1)
  = run [Row "Alice" 2024 "Janvier" 5000] [2024] ["Alice"; "Bob"] mois (Date 2024 3 1).
Proof.
  assert (mois ⊆ mois) as Hsub by done.
  assert (MOIS (Row "Bob" 2024 "Janvembre" 0) ∉ mois) as Hr.
  { apply (bool_decide_unpack _). by vm_compute. }
  apply (unknown_month_dropped [Row "Alice" 2024 "Janvier" 5000]
           (Row "Bob" 2024 "Janvembre" 0) [] [2024] ["Alice"; "Bob"] mois
           (Date 2024 3 1) Hsub Hr).
Defined.

(** C5 fails as stated: with every year, member and month selected, the
    run on a table with a misspelt month ends without an error; the
    record is in none of the views, and nobody is reported late although
    the record is an unpaid one. *)
Lemma unknown_month_no_error :
  ("Janvembre" ∉ mois)
  ∧ ∃ v, run mois_inconnu (annees mois_inconnu) (membres mois_inconnu) mois (Date 2024 3 1)
         = Some v
    ∧ v_df_filtre v = [Row "Alice" 2024 "Janvier" 5000]
    ∧ v_retards_df v = []
    ∧ v_total_par_mois v = total_par_mois [Row "Alice" 2024 "Janvier" 5000]
    ∧ v_pivot v = pivot [Row "Alice" 2024 "Janvier" 5000].
Proof.
  split; [apply (bool_decide_unpack _); by vm_compute|].
  eexists. split; [by vm_compute|]. split_and!; by vm_compute.
Qed.

(** * Further properties of the script *)

(** ** Selector options and the filter *)

Lemma filter_ext_elem_of {A} (P Q : A → Prop)
    `{∀ x, Decision (P x)} `{∀ x, Decision (Q x)} (l : list A) :
  (∀ x, x ∈ l → P x ↔ Q x) → filter P l = filter Q l.
Proof.
  induction l as [|x l IH]; intros Hext; [done|].
  rewrite !filter_cons, IH by (intros y Hy; apply Hext; by right).
  apply decide_ext, Hext. by left.
Qed.

Lemma Sorted_sorted_unique {A} `{EqDecision A} (R : relation A) `{RelDecision A A R}
    `{!Total R} (col : list A) :
  Sorted R (pd.sorted_unique R col).
Proof. apply (Sorted_merge_sort R). Qed.

(** X1: the options of the year selector and of the member selector are
    in ascending order, without repetition, and are exactly the years and
    the members that occur in the table. *)
Theorem selector_options (df : DataFrame) (y : Z) (n : string) :
  Sorted Z.le (annees df) ∧ NoDup (annees df) ∧ (y ∈ annees df ↔ y ∈ ANNEE <$> df)
  ∧ Sorted String.le (membres df) ∧ NoDup (membres df)
  ∧ (n ∈ membres df ↔ n ∈ NOM <$> df).
Proof.
  unfold annees, membres. split_and!.
  - apply (Sorted_sorted_unique Z.le).
  - apply NoDup_sorted_unique.
  - apply elem_of_sorted_unique.
  - apply (Sorted_sorted_unique String.le).
  - apply NoDup_sorted_unique.
  - apply elem_of_sorted_unique.
Qed.

(** X2: with the default selections (every year, every member, every
    month of the selectors) the filter keeps exactly the rows whose month
    is a canonical name, in table order. *)
Theorem default_selection (df : DataFrame) :
  df_filtre df (annees df) (membres df) mois = filter (λ r, MOIS r ∈ mois) df.
Proof.
  rewrite df_filtre_filter. apply filter_ext_elem_of. intros r Hr.
  unfold selected, annees, membres. rewrite !elem_of_sorted_unique.
  split; [by intros (_ & _ & ?)|]. intros Hm. split_and!; [..|done].
  - by apply list_elem_of_fmap_2.
  - by apply list_elem_of_fmap_2.
Qed.

(** X3: filtering a filtered frame again, with other selections, is
    filtering the table once with the intersections of the selections;
    the order of the two passes does not matter. *)
Theorem df_filtre_compose (df : DataFrame) (ys1 ys2 : list Z) (ms1 ms2 mos1 mos2 : list string) :
  df_filtre (df_filtre df ys1 ms1 mos1) ys2 ms2 mos2
  = df_filtre df (list_intersection ys1 ys2) (list_intersection ms1 ms2)
      (list_intersection mos1 mos2)
  ∧ df_filtre (df_filtre df ys1 ms1 mos1) ys2 ms2 mos2
    = df_filtre (df_filtre df ys2 ms2 mos2) ys1 ms1 mos1.
Proof.
  rewrite !df_filtre_filter, !list_filter_filter. split.
  - apply list_filter_iff. intros r. unfold selected.
    rewrite !list_elem_of_intersection. tauto.
  - apply list_filter_iff. intros r. tauto.
Qed.

Lemma sum_filter_le (P : row → Prop) `{∀ r, Decision (P r)} (df : DataFrame) :
  Forall (λ r, 0 ≤ MONTANT r) df → exact_sum (MONTANT <$> df) < 2 ^ 63 →
  0 ≤ pd.sum (MONTANT <$> filter P df) ≤ pd.sum (MONTANT <$> df).
Proof.
  intros Hpos Hlt. rewrite (sum_filter_exact P) by done.
  pose proof (total_cotisations_exact df Hpos Hlt) as Htot.
  unfold total_cotisations in Htot. rewrite Htot. by apply exact_sum_filter_le.
Qed.

(** X4: on an integer amount column without overflow, that is when no
    amount is negative and the exact sum of the amounts of the table is
    below 2^63, the filtered total lies between 0 and the total of the
    whole table; the filter never returns more rows than the table
    has. *)
Theorem df_filtre_total_le (df : DataFrame) (annee_select : list Z)
    (membre_select mois_select : list string) :
  Forall (λ r, 0 ≤ MONTANT r) df →
  exact_sum (MONTANT <$> df) < 2 ^ 63 →
  0 ≤ total_cotisations (df_filtre df annee_select membre_select mois_select)
    ≤ total_cotisations df
  ∧ (length (df_filtre df annee_select membre_select mois_select) ≤ length df)%nat.
Proof.
  intros Hpos Hlt. rewrite df_filtre_filter. split.
  - by apply sum_filter_le.
  - apply length_filter.
Qed.

Lemma df_filtre_total_le_witness :
  0 ≤ total_cotisations (df_filtre scenario [2024] ["Bob"] mois)
    ≤ total_cotisations scenario
  ∧ (length (df_filtre scenario [2024%Z] ["Bob"] mois) ≤ length scenario)%nat.
Proof.
  apply (df_filtre_total_le scenario [2024] ["Bob"] mois).
  - unfold scenario. repeat constructor; simpl; lia.
  - vm_compute. reflexivity.
Defined.

(** ** The counters *)

Lemma count_true_filter (P : row → Prop) `{∀ r, Decision (P r)} (dff : DataFrame) :
  pd.count_true ((λ r, bool_decide (P r)) <$> dff) = length (filter P dff).
Proof.
  induction dff as [|r dff IH]; [done|].
  cbn [fmap list_fmap]. rewrite count_true_cons, filter_cons, IH.
  case_bool_decide; [by rewrite decide_True|by rewrite decide_False].
Qed.

Lemma nb_paiements_filter (dff : DataFrame) :
  nb_paiements dff = length (filter (λ r, MONTANT r > 0) dff).
Proof.
  unfold nb_paiements. rewrite <-list_fmap_compose. apply (count_true_filter _).
Qed.

Lemma nb_non_paiements_filter (dff : DataFrame) :
  nb_non_paiements dff = length (filter (λ r, MONTANT r = 0) dff).
Proof.
  unfold nb_non_paiements. rewrite <-list_fmap_compose. apply (count_true_filter _).
Qed.

(** X5: on an integer (int64) amount column, where every amount cell
    holds a whole number, the two counters count the rows with a positive
    amount and the rows with amount 0; the rows they both leave out are
    exactly those with a negative amount, so together they never exceed
    the number of rows. *)
Theorem counters_partition (dff : DataFrame) :
  int64_column dff →
  nb_paiements dff = length (filter (λ r, MONTANT r > 0) dff)
  ∧ nb_non_paiements dff = length (filter (λ r, MONTANT r = 0) dff)
  ∧ (nb_paiements dff + nb_non_paiements dff
     + length (filter (λ r, (MONTANT r < 0)%Z) dff))%nat = length dff.
Proof.
  intros _.
  split_and!; [apply nb_paiements_filter|apply nb_non_paiements_filter|].
  rewrite nb_paiements_filter, nb_non_paiements_filter.
  induction dff as [|r dff IH]; [done|].
  rewrite !filter_cons. cbn [length]. rewrite <-IH.
  repeat case_decide; cbn [length]; lia.
Qed.

Lemma counters_partition_witness :
  (nb_paiements scenario + nb_non_paiements scenario
   + length (filter (λ r, (MONTANT r < 0)%Z) scenario))%nat = 3%nat.
Proof.
  apply (counters_partition scenario).
  unfold scenario. repeat constructor; simpl; lia.
Defined.

(** ** The late-payment loop, beyond filtered frames *)

Lemma iterrows_retards_None (today : date) (acc : list string) (dff : DataFrame) :
  iterrows (retards_body today) acc dff = None ↔ Exists (λ r, MOIS r ∉ mois) dff.
Proof.
  revert acc. induction dff as [|r dff IH]; intros acc.
  - split; [done|]. by intros ?%Exists_nil.
  - cbn [iterrows]. rewrite Exists_cons. destruct (decide (MOIS r ∈ mois)) as [Hm|Hm].
    + rewrite retards_body_canonical by done. cbn [mbind option_bind].
      rewrite IH. tauto.
    + unfold retards_body. rewrite (mois_map_unknown _ Hm). cbn [mbind option_bind].
      split; [by left|done].
Qed.

(** X6: on any frame, the late-payment loop raises [KeyError] exactly
    when some row carries a month that is not a canonical name, whatever
    the date and whatever the year and the amount of that row: the lookup
    comes before the tests. *)
Theorem retards_raises_iff (today : date) (dff : DataFrame) :
  retards today dff = None ↔ Exists (λ r, MOIS r ∉ mois) dff.
Proof. apply iterrows_retards_None. Qed.

Lemma value_counts_nil (col : list string) : pd.value_counts col = [] ↔ col = [].
Proof.
  split; [|by intros ->]. intros Hvc. destruct col as [|x col]; [done|]. exfalso.
  assert (x ∈ (pd.value_counts (x :: col)).*1) as Hx.
  { rewrite value_counts_entries, value_counts_keys.
    apply elem_of_appearance. left. }
  rewrite Hvc in Hx. by apply elem_of_nil in Hx.
Qed.

(** X7: on a frame whose months are canonical, the late-payment section
    shows the success message exactly when no row of the frame is in
    arrears, and the tally otherwise. *)
Theorem tous_a_jour_iff (today : date) (dff : DataFrame) :
  Forall (λ r, MOIS r ∈ mois) dff →
  afficher_retards <$> retards_df today dff = Some Tous_a_jour
  ↔ Forall (λ r, ¬ in_arrears today r) dff.
Proof.
  intros Hcan. unfold retards_df. rewrite retards_canonical by done.
  cbn [fmap option_fmap option_map].
  rewrite <-(filter_length_0 (in_arrears today)).
  destruct (pd.value_counts _) as [|e t] eqn:Hvc; cbn [afficher_retards].
  - apply value_counts_nil, fmap_nil_inv in Hvc. rewrite Hvc. done.
  - split; [done|]. intros Hlen. exfalso.
    apply length_zero_iff_nil in Hlen. rewrite Hlen in Hvc. done.
Qed.

Lemma tous_a_jour_iff_witness :
  afficher_retards <$> retards_df (Date 2024 1 15) scenario = Some Tous_a_jour.
Proof.
  assert (Forall (λ r, MOIS r ∈ mois) scenario) as Hcan.
  { unfold scenario. repeat constructor; apply (bool_decide_unpack _); by vm_compute. }
  apply (tous_a_jour_iff (Date 2024 1 15) scenario Hcan).
  unfold scenario. repeat constructor; apply (bool_decide_unpack _); by vm_compute.
Defined.

Lemma count_split (col : list string) (k : string) :
  length col
  = (length (filter (λ x, x = k) col) + length (filter (λ x, x ≠ k) col))%nat.
Proof.
  induction col as [|x col IH]; [done|].
  rewrite !filter_cons. cbn [length]. rewrite IH.
  destruct (decide (x = k)); destruct (decide (x ≠ k)); try done; cbn [length]; lia.
Qed.

Lemma counts_sum (ks col : list string) :
  NoDup ks → Forall (λ x, x ∈ ks) col →
  sum_list ((λ k, length (filter (λ x, x = k) col)) <$> ks) = length col.
Proof.
  intros Hnd. revert col. induction Hnd as [|k ks Hk Hnd IH]; intros col Hcov.
  - destruct col as [|x col]; [done|]. apply Forall_cons in Hcov as [[]%elem_of_nil _].
  - cbn [fmap list_fmap sum_list_with]. rewrite (count_split col k). f_equal.
    rewrite <-(IH (filter (λ x, x ≠ k) col)).
    + f_equal. apply Forall_fmap_ext_1, Forall_forall. intros k' Hk'.
      rewrite list_filter_filter. f_equal. apply list_filter_iff.
      intros x. split; [|tauto]. intros ->. split; [done|]. by intros ->.
    + apply Forall_forall. intros x [Hx Hin]%list_elem_of_filter.
      rewrite Forall_forall in Hcov. apply Hcov, elem_of_cons in Hin as [?|?]; done.
Qed.

Lemma value_counts_sum (col : list string) :
  sum_list (pd.value_counts col).*2 = length col.
Proof.
  rewrite value_counts_entries, <-list_fmap_compose.
  apply counts_sum; [apply NoDup_appearance|].
  apply Forall_forall. intros x Hx. by apply elem_of_appearance.
Qed.

Lemma value_counts_pos (col : list string) :
  Forall (λ e, (1 ≤ e.2)%nat) (pd.value_counts col).
Proof.
  rewrite value_counts_entries.
  apply Forall_fmap, Forall_forall. intros k Hk.
  apply (proj1 (elem_of_appearance col k)) in Hk. cbn.
  destruct (filter _ col) as [|x l] eqn:Hf; [|cbn; lia].
  exfalso. assert (k ∈ filter (λ x, x = k) col) as Hin.
  { apply list_elem_of_filter. by split. }
  rewrite Hf in Hin. by apply elem_of_nil in Hin.
Qed.

(** X8: on a frame whose months are canonical, the unpaid-month counts of
    the tally add up to the number of rows in arrears, and every member
    listed in the tally has at least one unpaid month. *)
Theorem retards_df_total (today : date) (dff : DataFrame) :
  Forall (λ r, MOIS r ∈ mois) dff →
  ∃ tally,
    retards_df today dff = Some tally
    ∧ sum_list tally.*2 = length (filter (in_arrears today) dff)
    ∧ Forall (λ e, (1 ≤ e.2)%nat) tally.
Proof.
  intros Hcan. unfold retards_df. rewrite retards_canonical by done.
  eexists. split_and!; [done| |apply value_counts_pos].
  by rewrite value_counts_sum, length_fmap.
Qed.

Lemma retards_df_total_witness :
  ∃ tally,
    retards_df (Date 2024 3 1) scenario = Some tally
    ∧ sum_list tally.*2 = 2%nat
    ∧ Forall (λ e, (1 ≤ e.2)%nat) tally.
Proof.
  assert (Forall (λ r, MOIS r ∈ mois) scenario) as Hcan.
  { unfold scenario. repeat constructor; apply (bool_decide_unpack _); by vm_compute. }
  destruct (retards_df_total (Date 2024 3 1) scenario Hcan) as (tally & Ht & Hs & Hp).
  exists tally. split_and!; [done| |done]. rewrite Hs. by vm_compute.
Defined.

(** X9: whenever the loop ends without raising, the tally lists the
    members by decreasing number of unpaid months. *)
Theorem retards_df_sorted (today : date) (dff : DataFrame) (tally : list (string * nat)) :
  retards_df today dff = Some tally → Sorted pd.count_ge tally.
Proof.
  unfold retards_df. intros (l & _ & ->)%fmap_Some.
  apply Sorted_sort_desc.
Qed.

Lemma retards_df_sorted_witness :
  Sorted pd.count_ge [("Alice", 1%nat); ("Bob", 1%nat)].
Proof.
  apply (retards_df_sorted (Date 2024 3 1) scenario). by vm_compute.
Defined.

Lemma sublist_filter_impl {A} (P Q : A → Prop)
    `{∀ x, Decision (P x)} `{∀ x, Decision (Q x)} (l : list A) :
  (∀ x, P x → Q x) → filter P l `sublist_of` filter Q l.
Proof.
  intros Himp. induction l as [|x l IH]; [done|].
  rewrite !filter_cons. destruct (decide (P x)) as [HP|HP].
  - rewrite decide_True by auto. by apply sublist_skip.
  - case_decide; [by apply sublist_cons|done].
Qed.

(** X10: on a frame whose months are canonical, the rows flagged late are
    among the rows counted as non-payments: the loop never collects more
    names than [nb_non_paiements]. *)
Theorem retards_le_non_paiements (today : date) (dff : DataFrame) :
  Forall (λ r, MOIS r ∈ mois) dff →
  ∃ l, retards today dff = Some l ∧ (length l ≤ nb_non_paiements dff)%nat.
Proof.
  intros Hcan. rewrite retards_canonical by done. eexists. split; [done|].
  rewrite length_fmap, nb_non_paiements_filter. apply sublist_length.
  apply (sublist_filter_impl (in_arrears today)). by intros r [_ ?].
Qed.

Lemma retards_le_non_paiements_witness :
  ∃ l, retards (Date 2024 3 1) scenario = Some l
       ∧ (length l ≤ nb_non_paiements scenario)%nat.
Proof.
  apply (retards_le_non_paiements (Date 2024 3 1) scenario).
  unfold scenario. repeat constructor; apply (bool_decide_unpack _); by vm_compute.
Defined.

(** The (year, month) of [d1] is not after the one of [d2]. *)
Lemma in_arrears_mono (d1 d2 : date) (r : row) :
  year d1 < year d2 ∨ (year d1 = year d2 ∧ month d1 ≤ month d2) →
  in_arrears d1 r → in_arrears d2 r.
Proof.
  unfold in_arrears, precedes. destruct (canonical_month_index (MOIS r)); [lia|tauto].
Qed.

(** X11: arrears only grow with time: on a frame whose months are
    canonical, the names collected at a date are a sublist of the names
    collected at any date of the same or a later month. *)
Theorem retards_monotone (d1 d2 : date) (dff : DataFrame) :
  Forall (λ r, MOIS r ∈ mois) dff →
  year d1 < year d2 ∨ (year d1 = year d2 ∧ month d1 ≤ month d2) →
  ∃ l1 l2, retards d1 dff = Some l1 ∧ retards d2 dff = Some l2 ∧ l1 `sublist_of` l2.
Proof.
  intros Hcan Hle. rewrite !retards_canonical by done.
  eexists _, _. split_and!; [done..|].
  apply fmap_sublist, (sublist_filter_impl (in_arrears d1)).
  intros r. by apply in_arrears_mono.
Qed.

Lemma retards_monotone_witness :
  ∃ l1 l2, retards (Date 2024 2 10) scenario = Some l1
           ∧ retards (Date 2024 3 1) scenario = Some l2 ∧ l1 `sublist_of` l2.
Proof.
  apply (retards_monotone (Date 2024 2 10) (Date 2024 3 1) scenario).
  - unfold scenario. repeat constructor; apply (bool_decide_unpack _); by vm_compute.
  - right. simpl. lia.
Defined.

(** ** How the views agree *)

Lemma sorted_unique_ext {A} `{EqDecision A} (R : relation A) `{RelDecision A A R}
    `{!Total R, !Transitive R, !AntiSymm (=) R} (col1 col2 : list A) :
  (∀ x, x ∈ col1 ↔ x ∈ col2) → pd.sorted_unique R col1 = pd.sorted_unique R col2.
Proof.
  intros Hext. apply (Sorted_unique R); [apply Sorted_sorted_unique; done..|].
  apply NoDup_Permutation; [apply NoDup_sorted_unique..|].
  intros x. by rewrite !elem_of_sorted_unique.
Qed.

Lemma pivot_index_membres (dff : DataFrame) : pd.index (pivot dff) = membres dff.
Proof.
  unfold pivot, pd.pivot_table, pd.unstack, membres. cbn [pd.index].
  apply (sorted_unique_ext String.le). intros n.
  pose proof (pivot_index dff n) as Hn.
  unfold pivot, pd.pivot_table, pd.unstack in Hn. cbn [pd.index] in Hn.
  by rewrite elem_of_sorted_unique in Hn.
Qed.

Lemma pivot_columns_mois (dff : DataFrame) :
  pd.columns (pivot dff) = pd.sorted_unique String.le (MOIS <$> dff).
Proof.
  unfold pivot, pd.pivot_table, pd.unstack. cbn [pd.columns].
  apply (sorted_unique_ext String.le). intros m.
  pose proof (pivot_columns dff m) as Hm.
  unfold pivot, pd.pivot_table, pd.unstack in Hm. cbn [pd.columns] in Hm.
  by rewrite elem_of_sorted_unique in Hm.
Qed.

Lemma groupby_sum_keys {K} `{EqDecision K} (R : relation K) `{RelDecision K K R}
    (key : row → K) (df : DataFrame) :
  (pd.groupby_sum R key df).*1 = pd.sorted_unique R (key <$> df).
Proof. unfold pd.groupby_sum. rewrite <-list_fmap_compose. apply list_fmap_id. Qed.

(** X12: the views list the same members and years in the same order:
    the bars of the by-member chart and the rows of the table are the
    members of the filtered frame in ascending order, as many as the
    "active members" counter says; the bars of the by-year chart are its
    years in ascending order; and the columns of the table are its month
    names in ascending string order (not calendar order). *)
Theorem views_labels (dff : DataFrame) :
  (total_par_membre dff).*1 = membres dff
  ∧ pd.index (pivot dff) = membres dff
  ∧ nb_membres dff = length (membres dff)
  ∧ (total_par_annee dff).*1 = annees dff
  ∧ pd.columns (pivot dff) = pd.sorted_unique String.le (MOIS <$> dff)
  ∧ Sorted String.le (pd.columns (pivot dff)).
Proof.
  split_and!.
  - apply groupby_sum_keys.
  - apply pivot_index_membres.
  - unfold nb_membres, pd.nunique, membres, pd.unique.
    by rewrite (sorted_unique_Permutation String.le).
  - apply groupby_sum_keys.
  - apply pivot_columns_mois.
  - rewrite pivot_columns_mois. apply (Sorted_sorted_unique String.le).
Qed.

Lemma pair_total_group (dff : DataFrame) (n m : string) :
  pair_total dff n m = group_total MOIS (filter (λ r, NOM r = n) dff) m.
Proof.
  unfold pair_total, group_total. rewrite list_filter_filter. f_equal. f_equal.
  apply list_filter_iff. intros r. tauto.
Qed.

Lemma pivot_cell_value (dff : DataFrame) (n m : string) :
  default 0 (pd.loc (pd.groupby_sum pd.pair_le (λ r, (NOM r, MOIS r)) dff) (n, m))
  = pair_total dff n m.
Proof.
  rewrite pivot_agged_loc. case_decide as He; [done|].
  unfold pair_total. symmetry.
  assert (filter (λ r, NOM r = n ∧ MOIS r = m) dff = []) as ->; [|done].
  apply length_zero_iff_nil, (filter_length_0 _), Forall_forall.
  intros r Hr Hnm. apply He, Exists_exists. eauto.
Qed.

Lemma pivot_row_sum (dff : DataFrame) (n : string) :
  pd.sum ((λ m, default 0
             (pd.loc (pd.groupby_sum pd.pair_le (λ r, (NOM r, MOIS r)) dff) (n, m)))
          <$> pd.sorted_unique String.le (MOIS <$> dff))
  = group_total NOM dff n.
Proof.
  rewrite (Forall_fmap_ext_1 _ (group_total MOIS (filter (λ r, NOM r = n) dff))).
  - apply group_totals_sum; [apply NoDup_sorted_unique|].
    apply Forall_forall. intros r [_ Hr]%list_elem_of_filter.
    by apply elem_of_sorted_unique, list_elem_of_fmap_2.
  - apply Forall_forall. intros m _. by rewrite pivot_cell_value, pair_total_group.
Qed.

(** X13: on an integer (int64) amount column, the table agrees with the
    by-member chart and with the total when its cells are added in the
    int64 arithmetic of the column: the cells of each row add up to the
    by-member total of its member, row by row in the same order, and all
    the cells together add up to the total of the filtered amounts. *)
Theorem pivot_row_sums (dff : DataFrame) :
  int64_column dff →
  pd.sum <$> pd.values (pivot dff) = (total_par_membre dff).*2
  ∧ pd.sum (pd.sum <$> pd.values (pivot dff)) = total_cotisations dff.
Proof.
  intros _.
  assert (pd.sum <$> pd.values (pivot dff) = (total_par_membre dff).*2) as Hrows.
  { unfold total_par_membre. rewrite groupby_sum_values.
    pose proof (pivot_index_membres dff) as Hi. pose proof (pivot_columns_mois dff) as Hc.
    unfold pivot, pd.pivot_table, pd.unstack in *.
    cbn [pd.index pd.columns pd.values] in *. rewrite Hi, Hc, <-list_fmap_compose.
    apply list_fmap_ext. intros _ n _. apply pivot_row_sum. }
  split; [done|]. rewrite Hrows. apply groupby_sum_total.
Qed.

Lemma pivot_row_sums_witness :
  pd.sum <$> pd.values (pivot scenario) = [5000; 0]
  ∧ pd.sum (pd.sum <$> pd.values (pivot scenario)) = 5000.
Proof.
  assert (int64_column scenario) as Hcol.
  { unfold scenario. repeat constructor; simpl; lia. }
  destruct (pivot_row_sums scenario Hcol) as [-> ->]. by vm_compute.
Defined.

Lemma NoDup_mois : NoDup mois.
Proof. apply (bool_decide_unpack _). by vm_compute. Qed.

Lemma exact_group_total_absent {K} `{EqDecision K} (key : row → K) (df : DataFrame)
    (k : K) :
  k ∉ key <$> df → exact_group_total key df k = 0.
Proof.
  intros Hk. unfold exact_group_total.
  assert (filter (λ r, key r = k) df = []) as ->; [|done].
  apply length_zero_iff_nil, (filter_length_0 _), Forall_forall.
  intros r Hr <-. by apply Hk, list_elem_of_fmap_2.
Qed.

(** X14: on an integer amount column whose amounts are non-negative with
    an exact sum of at most 2^53 (so that the by-month totals, which
    pandas holds as float64 once a month is missing, are exact), the 12
    by-month totals, NaN counted as 0, add up to the total of the rows
    whose month is a canonical name; the amounts of rows with any other
    month are in none of them. *)
Theorem total_par_mois_sum (dff : DataFrame) :
  Forall (λ r, 0 ≤ MONTANT r) dff →
  exact_sum (MONTANT <$> dff) ≤ 2 ^ 53 →
  exact_sum (default 0 <$> (total_par_mois dff).*2)
  = total_cotisations (filter (λ r, MOIS r ∈ mois) dff)
  ∧ total_cotisations (filter (λ r, MOIS r ∈ mois) dff)
    = exact_sum (MONTANT <$> filter (λ r, MOIS r ∈ mois) dff).
Proof.
  intros Hpos Hle. assert (exact_sum (MONTANT <$> dff) < 2 ^ 63) as Hlt by lia.
  assert (total_cotisations (filter (λ r, MOIS r ∈ mois) dff)
          = exact_sum (MONTANT <$> filter (λ r, MOIS r ∈ mois) dff)) as Htot.
  { unfold total_cotisations. by apply (sum_filter_exact _). }
  split; [|done]. rewrite Htot.
  unfold total_par_mois, pd.reindex. rewrite <-!list_fmap_compose.
  rewrite <-(group_totals_exact MOIS mois (filter _ dff) NoDup_mois).
  - f_equal. apply Forall_fmap_ext_1, Forall_forall. intros m Hm. cbn.
    rewrite (groupby_sum_loc MOIS). unfold exact_group_total at 1.
    rewrite list_filter_filter.
    assert (filter (λ r, MOIS r = m ∧ MOIS r ∈ mois) dff = filter (λ r, MOIS r = m) dff)
      as ->.
    { apply list_filter_iff. intros r. split; [tauto|]. by intros ->. }
    case_decide as Hin; cbn.
    + by apply group_total_exact.
    + symmetry. by apply (exact_group_total_absent MOIS).
  - apply Forall_forall. by intros r [? _]%list_elem_of_filter.
Qed.

Lemma total_par_mois_sum_witness :
  exact_sum (default 0 <$> (total_par_mois scenario).*2) = 5000.
Proof.
  assert (Forall (λ r, 0 ≤ MONTANT r) scenario) as Hpos.
  { unfold scenario. repeat constructor; simpl; lia. }
  assert (exact_sum (MONTANT <$> scenario) ≤ 2 ^ 53) as Hle by (vm_compute; discriminate).
  destruct (total_par_mois_sum scenario Hpos Hle) as [-> _]. by vm_compute.
Defined.

(** ** Nothing selected *)

Lemma df_filtre_nil (dff : DataFrame) ys ms mos :
  Forall (λ r, ¬ selected ys ms mos r) dff → df_filtre dff ys ms mos = [].
Proof.
  intros Hns. rewrite df_filtre_filter.
  by apply length_zero_iff_nil, (filter_length_0 _).
Qed.

Lemma run_nil (df : DataFrame) ys ms mos (today : date) :
  df_filtre df ys ms mos = [] → run df ys ms mos today = Some vues_vides.
Proof. intros Hnil. unfold run. rewrite Hnil. by vm_compute. Qed.

(** X16: as soon as one of the three selections is empty, the run ends
    without an error on the views of an empty frame: totals and counters
    0, no by-year or by-member bar, 12 by-month entries all NaN, a table
    without rows or columns, and the late-payment section showing the
    success message. *)
Theorem run_empty_selection (df : DataFrame) (annee_select : list Z)
    (membre_select mois_select : list string) (today : date) :
  run df [] membre_select mois_select today = Some vues_vides
  ∧ run df annee_select [] mois_select today = Some vues_vides
  ∧ run df annee_select membre_select [] today = Some vues_vides
  ∧ afficher_retards (v_retards_df vues_vides) = Tous_a_jour.
Proof.
  split_and!; [apply run_nil, df_filtre_nil, Forall_forall; intros r _ ..|done].
  - intros (H & _ & _). by apply elem_of_nil in H.
  - intros (_ & H & _). by apply elem_of_nil in H.
  - intros (_ & _ & H). by apply elem_of_nil in H.
Qed.

(** ** The order of the rows does not matter *)

Global Instance exact_sum_Permutation : Proper ((≡ₚ) ==> (=)) exact_sum.
Proof.
  induction 1 as [|x s1 s2 _ IH|x y s|s1 s2 s3 _ IH1 _ IH2];
    rewrite ?exact_sum_cons; [done|by rewrite IH|lia|congruence].
Qed.

(** int64 addition is commutative and associative, so the int64 sum of a
    series does not depend on the order of its entries. *)
Global Instance sum_Permutation : Proper ((≡ₚ) ==> (=)) pd.sum.
Proof. intros s1 s2 Hp. by rewrite !sum_wrap, Hp. Qed.

Lemma group_total_Permutation {K} `{EqDecision K} (key : row → K)
    (df1 df2 : DataFrame) (k : K) :
  df1 ≡ₚ df2 → group_total key df1 k = group_total key df2 k.
Proof. intros Hp. unfold group_total. by rewrite Hp. Qed.

Lemma groupby_sum_Permutation {K} `{EqDecision K} (R : relation K) `{RelDecision K K R}
    `{!Total R, !Transitive R, !AntiSymm (=) R} (key : row → K) (df1 df2 : DataFrame) :
  df1 ≡ₚ df2 → pd.groupby_sum R key df1 = pd.groupby_sum R key df2.
Proof.
  intros Hp. unfold pd.groupby_sum.
  rewrite (sorted_unique_ext R (key <$> df1) (key <$> df2))
    by (intros k; by rewrite Hp).
  apply list_fmap_ext. intros _ k _. f_equal. by apply (group_total_Permutation key).
Qed.

(** The table in closed form: labels in ascending order, and in each cell
    the sum of the amounts of the member in the month. *)
Lemma pivot_closed_form (dff : DataFrame) :
  pivot dff
  = pd.MkTable (membres dff) (pd.sorted_unique String.le (MOIS <$> dff))
      ((λ n, pair_total dff n <$> pd.sorted_unique String.le (MOIS <$> dff))
         <$> membres dff).
Proof.
  pose proof (pivot_index_membres dff) as Hi. pose proof (pivot_columns_mois dff) as Hc.
  unfold pivot, pd.pivot_table, pd.unstack in *.
  cbn [pd.index pd.columns pd.values] in *. rewrite Hi, Hc. f_equal.
  apply list_fmap_ext. intros _ n _. apply list_fmap_ext. intros _ m _.
  apply pivot_cell_value.
Qed.

Lemma pivot_Permutation (dff1 dff2 : DataFrame) : dff1 ≡ₚ dff2 → pivot dff1 = pivot dff2.
Proof.
  intros Hp. rewrite !pivot_closed_form. unfold membres.
  rewrite (sorted_unique_ext String.le (NOM <$> dff1) (NOM <$> dff2))
    by (intros k; by rewrite Hp).
  rewrite (sorted_unique_ext String.le (MOIS <$> dff1) (MOIS <$> dff2))
    by (intros k; by rewrite Hp).
  f_equal. apply list_fmap_ext. intros _ n _. apply list_fmap_ext. intros _ m _.
  unfold pair_total. by rewrite Hp.
Qed.

Lemma appearance_Permutation {A} `{EqDecision A} (col1 col2 : list A) :
  col1 ≡ₚ col2 → pd.appearance col1 ≡ₚ pd.appearance col2.
Proof.
  intros Hp. apply NoDup_Permutation; [apply NoDup_appearance..|].
  intros x. by rewrite !elem_of_appearance, Hp.
Qed.

Lemma value_counts_Permutation (col1 col2 : list string) :
  col1 ≡ₚ col2 → pd.value_counts col1 ≡ₚ pd.value_counts col2.
Proof.
  intros Hp. rewrite !value_counts_entries, (appearance_Permutation col1 col2 Hp).
  assert ((λ k, (k, length (filter (λ x, x = k) col1))) <$> pd.appearance col2
          = (λ k, (k, length (filter (λ x, x = k) col2))) <$> pd.appearance col2) as ->;
    [|done].
  apply list_fmap_ext. intros _ k _. by rewrite Hp.
Qed.

Lemma retards_df_Permutation (today : date) (dff1 dff2 : DataFrame) :
  dff1 ≡ₚ dff2 → same_tally (retards_df today dff1) (retards_df today dff2).
Proof.
  intros Hp. unfold retards_df.
  destruct (decide (Forall (λ r, MOIS r ∈ mois) dff1)) as [Hcan|Hbad].
  - rewrite !retards_canonical by (done || by rewrite <-Hp).
    cbn [fmap option_fmap option_map same_tally].
    apply value_counts_Permutation. by rewrite Hp.
  - apply not_Forall_Exists in Hbad; [|apply _]. unfold retards.
    rewrite (proj2 (iterrows_retards_None today [] dff1)) by done.
    by rewrite (proj2 (iterrows_retards_None today [] dff2)) by (by rewrite <-Hp).
Qed.

(** X17: on an integer (int64) amount column the figures do not depend
    on the order of the rows: two frames with the same rows in another
    order have the same total, the same counters, the same by-year,
    by-member and by-month totals and the same table; their late-payment
    outcome is the same up to the order in which members with equal
    counts are listed (both raise [KeyError], or the two tallies have the
    same entries). *)
Theorem views_row_order (today : date) (dff1 dff2 : DataFrame) :
  int64_column dff1 →
  dff1 ≡ₚ dff2 →
  total_cotisations dff1 = total_cotisations dff2
  ∧ nb_paiements dff1 = nb_paiements dff2
  ∧ nb_non_paiements dff1 = nb_non_paiements dff2
  ∧ nb_membres dff1 = nb_membres dff2
  ∧ total_par_annee dff1 = total_par_annee dff2
  ∧ total_par_membre dff1 = total_par_membre dff2
  ∧ total_par_mois dff1 = total_par_mois dff2
  ∧ pivot dff1 = pivot dff2
  ∧ same_tally (retards_df today dff1) (retards_df today dff2).
Proof.
  intros _ Hp. split_and!.
  - unfold total_cotisations. by rewrite Hp.
  - rewrite !nb_paiements_filter. by rewrite Hp.
  - rewrite !nb_non_paiements_filter. by rewrite Hp.
  - unfold nb_membres, pd.nunique, pd.unique.
    rewrite <-!(sorted_unique_Permutation String.le).
    by rewrite (sorted_unique_ext String.le (NOM <$> dff1) (NOM <$> dff2))
      by (intros k; by rewrite Hp).
  - by apply (groupby_sum_Permutation Z.le).
  - by apply (groupby_sum_Permutation String.le).
  - unfold total_par_mois. by rewrite (groupby_sum_Permutation String.le MOIS dff1 dff2).
  - by apply pivot_Permutation.
  - by apply retards_df_Permutation.
Qed.

Lemma views_row_order_witness :
  total_par_membre scenario = total_par_membre (reverse scenario)
  ∧ pivot scenario = pivot (reverse scenario)
  ∧ same_tally (Some [("Alice", 1%nat); ("Bob", 1%nat)])
      (Some [("Bob", 1%nat); ("Alice", 1%nat)]).
Proof.
  assert (int64_column scenario) as Hcol.
  { unfold scenario. repeat constructor; simpl; lia. }
  assert (scenario ≡ₚ reverse scenario) as Hp.
  { apply (bool_decide_unpack _). by vm_compute. }
  destruct (views_row_order (Date 2024 3 1) scenario (reverse scenario) Hcol Hp)
    as (_ & _ & _ & _ & _ & Hm & _ & Hpv & Ht).
  split_and!; [done..|]. exact Ht.
Defined.

(** ** Narrowing the selection *)

(** X18: on a table whose months are canonical, narrowing the selection
    only removes names from the late-payment list: the names collected on
    the filtered frame are a sublist of those collected on the whole
    table. *)
Theorem retards_filtre_sublist (today : date) (df : DataFrame) (annee_select : list Z)
    (membre_select mois_select : list string) :
  Forall (λ r, MOIS r ∈ mois) df →
  ∃ l lf,
    retards today df = Some l
    ∧ retards today (df_filtre df annee_select membre_select mois_select) = Some lf
    ∧ lf `sublist_of` l.
Proof.
  intros Hcan. rewrite df_filtre_filter.
  assert (Forall (λ r, MOIS r ∈ mois)
            (filter (selected annee_select membre_select mois_select) df)) as Hcanf.
  { rewrite Forall_forall in Hcan. apply Forall_forall.
    intros r [_ Hr]%list_elem_of_filter. by apply Hcan. }
  rewrite !retards_canonical by done.
  eexists _, _. split_and!; [done..|].
  apply fmap_sublist. rewrite list_filter_filter.
  apply (sublist_filter_impl (λ r, in_arrears today r ∧ _)). tauto.
Qed.

Lemma retards_filtre_sublist_witness :
  ∃ l lf,
    retards (Date 2024 3 1) scenario = Some l
    ∧ retards (Date 2024 3 1) (df_filtre scenario [2024] ["Bob"] mois) = Some lf
    ∧ lf `sublist_of` l.
Proof.
  apply (retards_filtre_sublist (Date 2024 3 1) scenario [2024] ["Bob"] mois).
  unfold scenario. repeat constructor; apply (bool_decide_unpack _); by vm_compute.
Defined.

(** ** Bars within the total *)

(** X19: on an integer amount column without overflow, that is when no
    amount is negative and the exact sum of the filtered amounts is below
    2^63, every by-year total and every by-member total lies between 0
    and the total of the filtered amounts. *)
Theorem totals_bounded (dff : DataFrame) :
  Forall (λ r, 0 ≤ MONTANT r) dff →
  exact_sum (MONTANT <$> dff) < 2 ^ 63 →
  Forall (λ e, 0 ≤ e.2 ≤ total_cotisations dff) (total_par_annee dff)
  ∧ Forall (λ e, 0 ≤ e.2 ≤ total_cotisations dff) (total_par_membre dff).
Proof.
  intros Hpos Hlt. unfold total_par_annee, total_par_membre, pd.groupby_sum, total_cotisations.
  split; apply Forall_fmap, Forall_forall; intros k _; cbn; by apply sum_filter_le.
Qed.

Lemma totals_bounded_witness :
  Forall (λ e, 0 ≤ e.2 ≤ 5000) (total_par_membre scenario).
Proof.
  apply (totals_bounded scenario).
  - unfold scenario. repeat constructor; simpl; lia.
  - vm_compute. reflexivity.
Defined.

(** ** The table and the by-month totals; the tally and the members *)



(** X21: whenever the loop ends without raising, every member listed in
    the tally is a member of the filtered frame, listed once, so the
    tally never has more rows than the "active members" counter says. *)
Theorem retards_df_members (today : date) (dff : DataFrame) (tally : list (string * nat)) :
  retards_df today dff = Some tally →
  tally.*1 ⊆ NOM <$> dff ∧ NoDup tally.*1 ∧ (length tally ≤ nb_membres dff)%nat.
Proof.
  unfold retards_df. intros (l & Hl & ->)%fmap_Some.
  assert (Forall (λ r, MOIS r ∈ mois) dff) as Hcan.
  { destruct (decide (Forall (λ r, MOIS r ∈ mois) dff)) as [|Hbad]; [done|].
    apply not_Forall_Exists in Hbad; [|apply _].
    apply (iterrows_retards_None today []) in Hbad. unfold retards in Hl. congruence. }
  rewrite retards_canonical in Hl by done. injection Hl as <-.
  assert ((pd.value_counts (NOM <$> filter (in_arrears today) dff)).*1 ⊆ NOM <$> dff)
    as Hsub.
  { intros n.
    rewrite value_counts_entries, value_counts_keys, elem_of_appearance.
    intros (r & -> & [_ Hr]%list_elem_of_filter)%list_elem_of_fmap.
    by apply list_elem_of_fmap_2. }
  split_and!; [done|apply NoDup_value_counts|].
  unfold nb_membres, pd.nunique, pd.unique.
  rewrite <-(length_fmap fst). apply submseteq_length, NoDup_submseteq.
  - apply NoDup_value_counts.
  - intros n Hn. by apply elem_of_remove_dups, Hsub.
Qed.

Lemma retards_df_members_witness :
  (length [("Alice", 1%nat); ("Bob", 1%nat)] ≤ nb_membres scenario)%nat.
Proof.
  apply (retards_df_members (Date 2024 3 1) scenario). by vm_compute.
Defined.
